(** * The Cloud environment of Sax: a model of package [cloud]

    The package routes every path either to the local file system or to a
    Google Cloud Storage bucket, depending on the prefix [/gcs/] of the
    path.  The functions of the package are embedded here one by one, over
    an explicit [World] that holds what the Go code reaches through globals
    and through the operating system: the storage client created by
    [init], the buckets of the object store and the local file tree.
    The load-test worker of [custom_tools], a caller of the package, is
    embedded as far as it computes: the root it configures and the report
    of one request. *)

From Stdlib Require Import ZArith NArith Ascii String List Bool Lia.
From Stdlib Require Import DecimalString HexadecimalString.
From stdpp Require Import base option list gmap strings sorting.

Local Open Scope string_scope.

(** ** Go's [strings] package, as far as the package uses it *)

Module strings.

(** [strings.HasPrefix(s, prefix)] *)
Fixpoint HasPrefix (s prefix : string) {struct prefix} : bool :=
  match prefix with
  | EmptyString => true
  | String c prefix' =>
      match s with
      | EmptyString => false
      | String d s' => Ascii.eqb c d && HasPrefix s' prefix'
      end
  end.

(** The slice [s[n:]]. *)
Fixpoint slice_from (n : nat) (s : string) : string :=
  match n with
  | O => s
  | S n' => match s with EmptyString => EmptyString | String _ s' => slice_from n' s' end
  end.

(** [strings.TrimPrefix(s, prefix)] *)
Definition TrimPrefix (s prefix : string) : string :=
  if HasPrefix s prefix then slice_from (String.length prefix) s else s.

(** [strings.Contains(s, substr)] *)
Fixpoint Contains (s substr : string) : bool :=
  HasPrefix s substr ||
  match s with
  | EmptyString => false
  | String _ s' => Contains s' substr
  end.

(** [strings.Cut(s, sep)]: the text before and after the first instance
    of [sep], and whether [sep] was found; [(s, "", false)] otherwise. *)
Fixpoint Cut (s sep : string) : string * string * bool :=
  if HasPrefix s sep then (EmptyString, slice_from (String.length sep) s, true)
  else match s with
       | EmptyString => (s, EmptyString, false)
       | String c s' =>
           match Cut s' sep with
           | (before, after, true) => (String c before, after, true)
           | (_, _, false) => (s, EmptyString, false)
           end
       end.

(** [strings.Split(s, "/")], the separator being one character. *)
Fixpoint Split (s : string) (sep : ascii) : list string :=
  match s with
  | EmptyString => [EmptyString]
  | String c s' =>
      if Ascii.eqb c sep then EmptyString :: Split s' sep
      else match Split s' sep with
           | [] => [String c EmptyString]
           | x :: xs => String c x :: xs
           end
  end.

(** [strings.Join(elems, sep)] *)
Fixpoint Join (elems : list string) (sep : string) : string :=
  match elems with
  | [] => EmptyString
  | [x] => x
  | x :: xs => x ++ sep ++ Join xs sep
  end.

End strings.

(** ** Go's [path/filepath] package on a Unix system *)

Module filepath.

Definition is_dotdot (c : string) : bool := String.eqb c "..".

(** One path element of [Clean]'s scan; [out] is the cleaned path so far,
    innermost element first. *)
Definition clean_elem (rooted : bool) (out : list string) (c : string) : list string :=
  if String.eqb c "" || String.eqb c "." then out
  else if is_dotdot c then
    match out with
    | top :: rest => if is_dotdot top then c :: out else rest
    | [] => if rooted then [] else [c]
    end
  else c :: out.

(** [filepath.Clean(path)]: the shortest path name equivalent to [path]
    by purely lexical processing. *)
Definition Clean (path : string) : string :=
  if String.eqb path "" then "."
  else
    let rooted := strings.HasPrefix path "/" in
    let out := fold_left (clean_elem rooted) (strings.Split path "/"%char) [] in
    match out with
    | [] => if rooted then "/" else "."
    | _ => (if rooted then "/" else "") ++ strings.Join (rev out) "/"
    end.

(** [filepath.Join(a, b)]: empty elements are ignored, the result is
    cleaned, and joining nothing but empty elements gives [""]. *)
Definition Join (a b : string) : string :=
  match List.filter (fun e => negb (String.eqb e "")) [a; b] with
  | [] => ""
  | elems => Clean (strings.Join elems "/")
  end.

End filepath.

(** ** Errors *)

(** Error numbers of the system calls of the local file system. *)
Inductive Errno := ENOENT | ENOTDIR | EISDIR | EEXIST | EINVAL.

(** Modelled from the spec: the sentinel errors [ErrFailedPrecondition],
    [ErrInvalidArgument] and [ErrUnimplemented] of package
    [saxml/common/errors], which is imported by the source but is not part
    of it; the spec names them the failed-precondition, invalid-argument
    and unimplemented conditions.  The other constructors are the errors of
    the storage client, of package [os], and [fmt.Errorf] with its [%w]
    verb. *)
Inductive error :=
| ErrFailedPrecondition
| ErrInvalidArgument
| ErrUnimplemented
| ErrObjectNotExist
| ErrBucketNotExist
| ErrStorage (msg : string)
| PathError (op path : string) (errno : Errno)
| Errorf (msg : string) (wrapped : error).

#[global] Instance Errno_eq_dec : EqDecision Errno.
Proof. solve_decision. Defined.

#[global] Instance error_eq_dec : EqDecision error.
Proof. solve_decision. Defined.

(** [errors.Is(err, target)] for a sentinel [target]: some error of the
    [%w] chain of [err] is [target]. *)
Fixpoint errors_Is (err target : error) : bool :=
  bool_decide (err = target) ||
  match err with
  | Errorf _ wrapped => errors_Is wrapped target
  | _ => false
  end.

(** [os.IsNotExist(err)] *)
Definition os_IsNotExist (err : error) : bool :=
  match err with
  | PathError _ _ ENOENT => true
  | _ => false
  end.

(** ** The errors in terms of the conditions of the spec *)

Definition failed_precondition (err : error) : Prop :=
  errors_Is err ErrFailedPrecondition = true.

Definition invalid_argument (err : error) : Prop :=
  errors_Is err ErrInvalidArgument = true.

Definition unimplemented (err : error) : Prop :=
  errors_Is err ErrUnimplemented = true.

(** What a Go function returning [(value, error)] returns. *)
Inductive result (A : Type) :=
| Ok (a : A)
| Err (err : error).
Arguments Ok {A} a.
Arguments Err {A} err.

(** ** The world outside the package *)

Abbreviation bytes := (list Byte.byte).

(** [*storage.Client]; [init] leaves the global [gcsClient] nil when no
    credentials are found. *)
Inductive StorageClient := storageClient.

Record BucketHandle := { bucketName : string }.
Record ObjectHandle := { objectBucket : string; objectName : string }.

#[global] Instance ObjectHandle_eq_dec : EqDecision ObjectHandle.
Proof. solve_decision. Defined.

(** A node of the local file tree. *)
Inductive Node :=
| File (content : bytes)
| Dir.

(** The state the package works on.  Local files are keyed by their
    absolute path, as the list of its elements (the root is [[]]). *)
Record World := {
  gcsClient : option StorageClient;
  gcsBuckets : gmap string (gmap string bytes);
  localFiles : gmap (list string) Node;
  workDir : list string;
}.

Definition set_gcsBuckets (w : World) (b : gmap string (gmap string bytes)) : World :=
  {| gcsClient := gcsClient w; gcsBuckets := b;
     localFiles := localFiles w; workDir := workDir w |}.

Definition set_localFiles (w : World) (f : gmap (list string) Node) : World :=
  {| gcsClient := gcsClient w; gcsBuckets := gcsBuckets w;
     localFiles := f; workDir := workDir w |}.

(** Strings in the order of [String.leb], the order in which both the
    object store and [os.ReadDir] list names. *)
Definition sort_names (l : list string) : list string :=
  merge_sort (fun a b => Is_true (String.leb a b)) l.

(** ** The storage client ([cloud.google.com/go/storage])

    The object store is taken to be reliable: a call fails only for a
    reason that can be read off the buckets (a missing bucket or object, an
    empty name). *)

Module storage.

Record Query := { Prefix : string; Delimiter : string }.

(** The attributes the package looks at.  A synthetic directory entry of
    a listing with a delimiter has [AttrPrefix] set and [Name] empty. *)
Record ObjectAttrs := { Name : string; AttrPrefix : string; Size : nat }.

Record Writer := { writerObject : ObjectHandle; writerData : bytes }.

(** [client.Bucket(name)] and [bucket.Object(name)] *)
Definition Bucket (c : StorageClient) (name : string) : BucketHandle :=
  {| bucketName := name |}.

Definition Object (b : BucketHandle) (name : string) : ObjectHandle :=
  {| objectBucket := bucketName b; objectName := name |}.

Definition validate (o : ObjectHandle) : option error :=
  if String.eqb (objectBucket o) "" then Some (ErrStorage "storage: bucket name is empty")
  else if String.eqb (objectName o) "" then Some (ErrStorage "storage: object name is empty")
  else None.

Definition lookup_object (w : World) (o : ObjectHandle) : option bytes :=
  gcsBuckets w !! objectBucket o ≫= fun objs => objs !! objectName o.

(** [object.Attrs(ctx)] *)
Definition Attrs (w : World) (o : ObjectHandle) : result ObjectAttrs :=
  match validate o with
  | Some err => Err err
  | None =>
      match lookup_object w o with
      | Some data => Ok {| Name := objectName o; AttrPrefix := ""; Size := length data |}
      | None => Err ErrObjectNotExist
      end
  end.

(** [object.NewReader(ctx)] followed by [io.ReadAll]: the reader is the
    content it will deliver. *)
Definition NewReader (w : World) (o : ObjectHandle) : result bytes :=
  match validate o with
  | Some err => Err err
  | None =>
      match lookup_object w o with
      | Some data => Ok data
      | None => Err ErrObjectNotExist
      end
  end.

(** [object.NewWriter(ctx)], [w.Write(data)] and [w.Close()].  The names
    are checked when the upload is opened, by the first [Write] or by
    [Close]; the object appears in the bucket when [Close] succeeds. *)
Definition NewWriter (o : ObjectHandle) : Writer :=
  {| writerObject := o; writerData := [] |}.

Definition Write (wr : Writer) (data : bytes) : result Writer :=
  match validate (writerObject wr) with
  | Some err => Err err
  | None => Ok {| writerObject := writerObject wr; writerData := writerData wr ++ data |}
  end.

Definition Close (w : World) (wr : Writer) : World * option error :=
  let o := writerObject wr in
  match validate o with
  | Some err => (w, Some err)
  | None =>
      match gcsBuckets w !! objectBucket o with
      | None => (w, Some ErrBucketNotExist)
      | Some objs =>
          (set_gcsBuckets w (<[objectBucket o := <[objectName o := writerData wr]> objs]> (gcsBuckets w)),
           None)
      end
  end.

(** What one object contributes to a listing: itself, or, when the rest
    of its name after the query prefix contains the delimiter, the
    directory-like prefix up to and including that delimiter. *)
Definition classify (q : Query) (name : string) : option (string + string) :=
  if strings.HasPrefix name (Prefix q) then
    if String.eqb (Delimiter q) "" then Some (inl name)
    else
      match strings.Cut (strings.TrimPrefix name (Prefix q)) (Delimiter q) with
      | (before, _, true) => Some (inr (Prefix q ++ before ++ Delimiter q))
      | (_, _, false) => Some (inl name)
      end
  else None.

Definition item_of (objs : gmap string bytes) (name : string) : ObjectAttrs :=
  {| Name := name; AttrPrefix := ""; Size := length (default [] (objs !! name)) |}.

Definition prefix_of (p : string) : ObjectAttrs :=
  {| Name := ""; AttrPrefix := p; Size := 0 |}.

(** [bucket.Objects(ctx, query)]: the results of the successive calls of
    [Next] up to [iterator.Done]: the matching objects, then the
    synthetic directory entries, without duplicates. *)
Definition Objects (w : World) (b : BucketHandle) (q : Query) : list (result ObjectAttrs) :=
  if String.eqb (bucketName b) "" then [Err (ErrStorage "storage: bucket name is empty")]
  else
    match gcsBuckets w !! bucketName b with
    | None => [Err ErrBucketNotExist]
    | Some objs =>
        let found := omap (classify q) (sort_names (fst <$> map_to_list objs)) in
        let items := omap (fun c => match c with inl n => Some n | inr _ => None end) found in
        let prefixes := omap (fun c => match c with inl _ => None | inr p => Some p end) found in
        ((fun n => Ok (item_of objs n)) <$> items)
          ++ ((fun p => Ok (prefix_of p)) <$> remove_dups prefixes)
    end.

End storage.

(** ** The local file system (package [os])

    Paths are resolved element by element from the root or from the
    working directory; there are no symbolic links and no permissions, so
    a call fails only because a node is missing or of the wrong kind. *)

Module os.

Record FileInfo := { IsDir : bool; Size : nat }.
Record DirEntry := { Name : string }.

Definition is_name (c : string) : bool :=
  negb (String.eqb c "" || String.eqb c "." || String.eqb c "..").

(** Where one path element leads from the directory [cur]. *)
Definition step (cur : list string) (c : string) : list string :=
  if String.eqb c "" || String.eqb c "." then cur
  else if String.eqb c ".." then removelast cur
  else (cur ++ [c])%list.

(** Follows [elems] from [cur]; every node on the way has to be a
    directory. *)
Fixpoint walk (fs : gmap (list string) Node) (cur : list string) (elems : list string)
  : Errno + list string :=
  match elems with
  | [] => inr cur
  | c :: rest =>
      match fs !! cur with
      | Some Dir => walk fs (step cur c) rest
      | Some (File _) => inl ENOTDIR
      | None => inl ENOENT
      end
  end.

Definition start (w : World) (path : string) : list string :=
  if strings.HasPrefix path "/" then [] else workDir w.

Definition locate (w : World) (path : string) : Errno + list string :=
  if String.eqb path "" then inl ENOENT
  else walk (localFiles w) (start w path) (strings.Split path "/").

(** [os.Stat(path)] *)
Definition Stat (w : World) (path : string) : result FileInfo :=
  match locate w path with
  | inl errno => Err (PathError "stat" path errno)
  | inr key =>
      match localFiles w !! key with
      | Some Dir => Ok {| IsDir := true; Size := 0 |}
      | Some (File data) => Ok {| IsDir := false; Size := length data |}
      | None => Err (PathError "stat" path ENOENT)
      end
  end.

(** [os.ReadFile(path)] *)
Definition ReadFile (w : World) (path : string) : result bytes :=
  match locate w path with
  | inl errno => Err (PathError "open" path errno)
  | inr key =>
      match localFiles w !! key with
      | Some (File data) => Ok data
      | Some Dir => Err (PathError "read" path EISDIR)
      | None => Err (PathError "open" path ENOENT)
      end
  end.

(** [os.WriteFile(path, data, perm)]: creates or truncates the file. *)
Definition WriteFile (w : World) (path : string) (data : bytes) : World * option error :=
  match locate w path with
  | inl errno => (w, Some (PathError "open" path errno))
  | inr key =>
      match localFiles w !! key with
      | Some Dir => (w, Some (PathError "open" path EISDIR))
      | _ => (set_localFiles w (<[key := File data]> (localFiles w)), None)
      end
  end.

(** The part of [key] below the directory [dir], when it is below. *)
Fixpoint below (dir key : list string) : option (list string) :=
  match dir with
  | [] => Some key
  | d :: dir' =>
      match key with
      | k :: key' => if String.eqb d k then below dir' key' else None
      | [] => None
      end
  end.

Definition is_below (dir key : list string) : bool :=
  match below dir key with Some _ => true | None => false end.

Definition children (fs : gmap (list string) Node) (dir : list string) : list string :=
  omap (fun k => match below dir k with Some [name] => Some name | _ => None end)
       (fst <$> map_to_list fs).

(** The tree below [old], moved below [new]. *)
Definition move_tree (fs : gmap (list string) Node) (old new : list string)
  : gmap (list string) Node :=
  let moved : list (list string * Node) :=
    omap (fun kn : list string * Node =>
            match below old kn.1 with
            | Some tail => Some ((new ++ tail)%list, kn.2)
            | None => None
            end) (map_to_list fs) in
  let kept : gmap (list string) Node :=
    filter (fun kn : list string * Node => is_below old kn.1 = false) fs in
  list_to_map moved ∪ kept.

(** [os.Rename(oldpath, newpath)]: a file replaces a file, a directory
    moves with all that is below it onto a missing or empty directory. *)
Definition Rename (w : World) (oldpath newpath : string) : World * option error :=
  match locate w oldpath, locate w newpath with
  | inl errno, _ => (w, Some (PathError "rename" oldpath errno))
  | _, inl errno => (w, Some (PathError "rename" newpath errno))
  | inr old, inr new =>
      let fs := localFiles w in
      match fs !! old, fs !! new with
      | None, _ => (w, Some (PathError "rename" oldpath ENOENT))
      | Some (File data), Some Dir => (w, Some (PathError "rename" newpath EISDIR))
      | Some (File data), _ => (set_localFiles w (<[new := File data]> (delete old fs)), None)
      | Some Dir, Some (File _) => (w, Some (PathError "rename" newpath ENOTDIR))
      | Some Dir, _ =>
          if bool_decide (old = new) then (w, None)
          else if is_below old new then (w, Some (PathError "rename" newpath EINVAL))
          else if bool_decide (children fs new = []) then
            (set_localFiles w (move_tree fs old new), None)
          else (w, Some (PathError "rename" newpath EEXIST))
      end
  end.

(** The walk of [MkdirAll]: a missing directory is made on the way. *)
Fixpoint mkdir_walk (fs : gmap (list string) Node) (cur : list string) (elems : list string)
  : Errno + gmap (list string) Node :=
  match elems with
  | [] =>
      match fs !! cur with
      | Some Dir => inr fs
      | Some (File _) => inl ENOTDIR
      | None => inl ENOENT
      end
  | c :: rest =>
      match fs !! cur with
      | Some Dir =>
          let next := step cur c in
          match fs !! next with
          | None => if is_name c then mkdir_walk (<[next := Dir]> fs) next rest
                    else inl ENOENT
          | Some _ => mkdir_walk fs next rest
          end
      | Some (File _) => inl ENOTDIR
      | None => inl ENOENT
      end
  end.

(** [os.MkdirAll(path, perm)]: makes the directory [path] and every
    missing parent; succeeds when [path] is a directory already. *)
Definition MkdirAll (w : World) (path : string) : World * option error :=
  if String.eqb path "" then (w, Some (PathError "mkdir" path ENOENT))
  else
    match mkdir_walk (localFiles w) (start w path) (strings.Split path "/") with
    | inl errno => (w, Some (PathError "mkdir" path errno))
    | inr fs => (set_localFiles w fs, None)
    end.

(** [os.ReadDir(path)]: the entries of the directory, sorted by name. *)
Definition ReadDir (w : World) (path : string) : result (list DirEntry) :=
  match locate w path with
  | inl errno => Err (PathError "open" path errno)
  | inr key =>
      match localFiles w !! key with
      | Some Dir => Ok ((fun n => {| Name := n |}) <$> sort_names (children (localFiles w) key))
      | Some (File _) => Err (PathError "readdirent" path ENOTDIR)
      | None => Err (PathError "open" path ENOENT)
      end
  end.

End os.

(** ** Package [cloud] *)

(** [sax_root] flag values with this prefix are Google Cloud Storage paths. *)
Definition gcsURLPrefix : string := "gs://".

(** Internally [gs://...] URLs are converted to [/gcs/...] paths. *)
Definition gcsPathPrefix : string := "/gcs/".

(** The empty placeholder file that stands for a directory on GCS. *)
Definition metadataFile : string := "METADATA".

Definition gcsBucketAndObject (w : World) (path : string)
  : result (BucketHandle * ObjectHandle) :=
  match gcsClient w with
  | None => Err (Errorf "no Google Cloud Storage connection: " ErrFailedPrecondition)
  | Some client =>
      let path := strings.TrimPrefix path gcsPathPrefix in
      match strings.Cut path "/" with
      | (bucketName, objectPath, false) =>
          Err (Errorf ("invalid GCS file path " ++ path ++ ": ") ErrInvalidArgument)
      | (bucketName, objectPath, true) =>
          let bucket := storage.Bucket client bucketName in
          let object := storage.Object bucket objectPath in
          Ok (bucket, object)
      end
  end.

(** [ReadFile] reads the content of a file. *)
Definition ReadFile (w : World) (path : string) : result bytes :=
  if strings.HasPrefix path gcsPathPrefix then
    match gcsBucketAndObject w path with
    | Err err => Err err
    | Ok (_, object) =>
        match storage.NewReader w object with
        | Err err => Err (Errorf ("error reading GCS file " ++ path ++ ": ") err)
        | Ok r => Ok r
        end
    end
  else os.ReadFile w path.

(** [ReadCachedFile] *)
Definition ReadCachedFile (w : World) (path : string) : result bytes :=
  ReadFile w path.

(** [WriteFile] writes the content of a file. *)
Definition WriteFile (w : World) (path : string) (data : bytes) : World * option error :=
  if strings.HasPrefix path gcsPathPrefix then
    match gcsBucketAndObject w path with
    | Err err => (w, Some err)
    | Ok (_, object) =>
        let wr := storage.NewWriter object in
        match storage.Write wr data with
        | Err err => (w, Some (Errorf ("error writing GCS file " ++ path ++ ": ") err))
        | Ok wr => storage.Close w wr
        end
    end
  else os.WriteFile w path data.

(** The verb [%d] of [fmt.Sprintf] on an [int64]. *)
Definition fmt_d (n : Z) : string := DecimalString.NilZero.string_of_int (Z.to_int n).

(** The verb [%016x] on a [uint64]: lower-case hexadecimal, padded with
    zeros to sixteen digits. *)
Definition fmt_016x (n : N) : string :=
  let digits := HexadecimalString.NilZero.string_of_uint (N.to_hex_uint (n mod 2 ^ 64)%N) in
  string_of_list_ascii (repeat "0"%char (16 - String.length digits)) ++ digits.

(** [WriteFileAtomically]; [now] is what [time.Now().UnixNano()] returns
    and [rnd] what [rand.Uint64()] returns during the call. *)
Definition WriteFileAtomically (now : Z) (rnd : N) (w : World) (path : string) (data : bytes)
  : World * option error :=
  if strings.HasPrefix path gcsPathPrefix then WriteFile w path data
  else
    let tempPath := path ++ "." ++ fmt_d now ++ "." ++ fmt_016x rnd in
    match os.WriteFile w tempPath data with
    | (w, Some err) => (w, Some err)
    | (w, None) => os.Rename w tempPath path
    end.

(** [FileExists] checks the existence of a file. *)
Definition FileExists (w : World) (path : string) : bool * option error :=
  if strings.HasPrefix path gcsPathPrefix then
    match gcsBucketAndObject w path with
    | Err err => (false, Some err)
    | Ok (_, object) =>
        match storage.Attrs w object with
        | Err err =>
            if bool_decide (err = ErrObjectNotExist) then (false, None)
            else (false, Some err)
        | Ok _ => (true, None)
        end
    end
  else
    match os.Stat w path with
    | Ok fileInfo =>
        if os.IsDir fileInfo then
          (false, Some (Errorf (path ++ " is a directory, not a file: ") ErrFailedPrecondition))
        else (true, None)
    | Err err =>
        if os_IsNotExist err then (false, None)
        else (false, Some err)
    end.

(** What [RootDir] reads from the process: [os.Args[0]], the value of the
    flag [sax_root], the environment and [os.TempDir()]. *)
Record Process := {
  Args0 : string;
  saxRoot : string;
  environ : gmap string string;
  TempDir : string;
}.

(** [os.Getenv(key)]: the empty string when the variable is not set. *)
Definition Getenv (p : Process) (key : string) : string :=
  default "" (environ p !! key).

Definition testRoot (p : Process) : string :=
  filepath.Join (TempDir p) "sax-test-root".

(** A call either returns or ends the process ([log.Fatal]). *)
Inductive outcome (A : Type) :=
| Returns (a : A)
| Fatal (msg : string).
Arguments Returns {A} a.
Arguments Fatal {A} msg.

(** [RootDir] returns the directory where all Sax cells store their
    metadata. *)
Definition RootDir (p : Process) : outcome string :=
  if strings.Contains (Args0 p) "_test" then Returns (testRoot p)
  else if negb (String.eqb (saxRoot p) "") then
    if strings.HasPrefix (saxRoot p) gcsURLPrefix then
      Returns (gcsPathPrefix ++ strings.TrimPrefix (saxRoot p) gcsURLPrefix)
    else Returns (saxRoot p)
  else
    let saxRoot := Getenv p "SAX_ROOT" in
    if negb (String.eqb saxRoot "") then
      if strings.HasPrefix saxRoot gcsURLPrefix then
        Returns (gcsPathPrefix ++ strings.TrimPrefix saxRoot gcsURLPrefix)
      else Returns saxRoot
    else Fatal "Neither the sax_root flag nor the SAX_ROOT environment variable is set".

(** [CreateDir] creates a directory. *)
Definition CreateDir (w : World) (path acl : string) : World * option error :=
  if negb (String.eqb acl "") then
    (w, Some (Errorf "CreateDir with ACL is not supported: " ErrUnimplemented))
  else if strings.HasPrefix path gcsPathPrefix then
    match gcsBucketAndObject w (filepath.Join path metadataFile) with
    | Err err => (w, Some err)
    | Ok (_, object) =>
        let wr := storage.NewWriter object in
        storage.Close w wr
    end
  else os.MkdirAll w path.

(** The loop of [ListSubdirs] over the iterator: the names seen so far are
    dropped when a call of [Next] fails. *)
Fixpoint collect_names (it : list (result storage.ObjectAttrs)) (subDirs : list string)
  : list string * option error :=
  match it with
  | [] => (subDirs, None)
  | Err err :: _ => ([], Some err)
  | Ok attrs :: it' => collect_names it' (subDirs ++ [storage.Name attrs])%list
  end.

(** [ListSubdirs] lists subdirectories in a directory. *)
Definition ListSubdirs (w : World) (path : string) : list string * option error :=
  if strings.HasPrefix path gcsPathPrefix then
    match gcsBucketAndObject w path with
    | Err err => ([], Some err)
    | Ok (bucket, _) =>
        let query := {| storage.Prefix := path; storage.Delimiter := "/" |} in
        let it := storage.Objects w bucket query in
        collect_names it []
    end
  else
    match os.ReadDir w path with
    | Err err => ([], Some err)
    | Ok dirEntries => (os.Name <$> dirEntries, None)
    end.

(** [DirExists] checks the existence of a directory. *)
Definition DirExists (w : World) (path : string) : bool * option error :=
  if strings.HasPrefix path gcsPathPrefix then
    match gcsBucketAndObject w (filepath.Join path metadataFile) with
    | Err err => (false, Some err)
    | Ok (_, object) =>
        match storage.Attrs w object with
        | Err err =>
            if bool_decide (err = ErrObjectNotExist) then (false, None)
            else (false, Some err)
        | Ok _ => (true, None)
        end
    end
  else
    match os.Stat w path with
    | Ok fileInfo =>
        if os.IsDir fileInfo then (true, None)
        else (false, Some (Errorf (path ++ " is a file, not a directory: ") ErrFailedPrecondition))
    | Err err =>
        if os_IsNotExist err then (false, None)
        else (false, Some err)
    end.

(** [RequiredACLNamePrefix] returns the string required to prefix all ACL
    names. *)
Definition RequiredACLNamePrefix : string := "".

(** [CheckACLs] returns nil iff the principal passes an ACL check. *)
Definition CheckACLs (acls : list string) : option error :=
  if Nat.eqb (length acls) 0 then None
  else Some (Errorf "ACL check is not supported: " ErrUnimplemented).

(** ** Channels, the mutex [muLeader] and goroutines

    [Watch] and [Lead] work on the Go runtime rather than on files: they
    make channels, lock the package-level mutex and start a goroutine.
    Nothing is ever sent on the channels of this package, so a channel is
    known by whether it is closed. *)

Inductive ChanState := ChanOpen | ChanClosed.

(** The goroutine started by [Lead]: at [<-closer], or past it and at
    [muLeader.Unlock()]. *)
Inductive Routine :=
| Receiving (closer : nat)
| Unlocking.

Record Runtime := {
  muLeader : bool;
  chans : list ChanState;
  routines : list Routine;
  crashed : bool;
}.

Definition startup : Runtime :=
  {| muLeader := false; chans := []; routines := []; crashed := false |}.

(** [make(chan T)]: the new channel is the next index of [chans]. *)
Definition make_chan (r : Runtime) : Runtime * nat :=
  ({| muLeader := muLeader r; chans := chans r ++ [ChanOpen];
      routines := routines r; crashed := crashed r |},
   length (chans r)).

(** [close(c)]; closing a closed channel panics. *)
Definition close_chan (r : Runtime) (c : nat) : Runtime :=
  match chans r !! c with
  | Some ChanOpen =>
      {| muLeader := muLeader r; chans := <[c := ChanClosed]> (chans r);
         routines := routines r; crashed := crashed r |}
  | _ =>
      {| muLeader := muLeader r; chans := chans r;
         routines := routines r; crashed := true |}
  end.

(** [go func() { ... }()] *)
Definition go (r : Runtime) (g : Routine) : Runtime :=
  {| muLeader := muLeader r; chans := chans r;
     routines := routines r ++ [g]; crashed := crashed r |}.

(** [muLeader.Unlock()]; unlocking an unlocked mutex is a fatal error. *)
Definition Unlock (r : Runtime) : Runtime :=
  {| muLeader := false; chans := chans r; routines := routines r;
     crashed := crashed r || negb (muLeader r) |}.

(** [Watch] watches for content changes in a file. *)
Definition Watch (r : Runtime) (path : string) : Runtime * (nat * option error) :=
  let (r, ch) := make_chan r in
  (r, (ch, None)).

(** [Lead] blocks until it acquires exclusive access to a file: [None] is
    the call waiting in [muLeader.Lock()], which it leaves only once the
    mutex is free. *)
Definition Lead (r : Runtime) (path : string) : option (Runtime * (nat * option error)) :=
  if muLeader r then None
  else
    let r := {| muLeader := true; chans := chans r;
                routines := routines r; crashed := crashed r |} in
    let (r, closer) := make_chan r in
    let r := go r (Receiving closer) in
    Some (r, (closer, None)).

(** One step of the [i]-th goroutine, when it can make one: the receive
    from [closer] returns once the channel is closed. *)
Definition routine_step (r : Runtime) (i : nat) : option Runtime :=
  match routines r !! i with
  | Some (Receiving closer) =>
      match chans r !! closer with
      | Some ChanClosed =>
          Some {| muLeader := muLeader r; chans := chans r;
                  routines := <[i := Unlocking]> (routines r); crashed := crashed r |}
      | _ => None
      end
  | Some Unlocking =>
      Some (Unlock {| muLeader := muLeader r; chans := chans r;
                      routines := delete i (routines r); crashed := crashed r |})
  | None => None
  end.

(** What the scheduler can do while the callers of the package do
    nothing: run a goroutine that is not blocked. *)
Inductive sched : Runtime -> Runtime -> Prop :=
| sched_routine r i r' :
    crashed r = false -> routine_step r i = Some r' -> sched r r'.

(** ** The URL-to-internal conversion, and worlds to run the package in *)

(** The conversion [toInternal] of the spec's Path Classifier, in the
    spec's words: an input that starts with the external scheme [gs://]
    has that scheme replaced by the internal prefix [/gcs/], any other
    input is returned unchanged.  [RootDir] has no function of this name:
    it does the conversion inline, once for the flag and once for the
    environment variable. *)
Definition toInternal (url : string) : string :=
  if strings.HasPrefix url gcsURLPrefix
  then gcsPathPrefix ++ strings.slice_from (String.length gcsURLPrefix) url
  else url.

(** A machine with credentials: a storage client, the empty bucket [sax]
    and an empty local root directory. *)
Definition cloud_world : World :=
  {| gcsClient := Some storageClient;
     gcsBuckets := {[ "sax" := ∅ ]};
     localFiles := {[ [] := Dir ]};
     workDir := [] |}.

(** The same machine when [init] found no credentials. *)
Definition offline_world : World :=
  {| gcsClient := None;
     gcsBuckets := {[ "sax" := ∅ ]};
     localFiles := {[ [] := Dir ]};
     workDir := [] |}.

(** A machine whose local disk holds the cell directory [/sax/cell] with
    one file in it. *)
Definition disk_world : World :=
  {| gcsClient := None;
     gcsBuckets := ∅;
     localFiles :=
       <[ ["sax"; "cell"; "location.proto"] := File [] ]>
         (<[ ["sax"; "cell"] := Dir ]> (<[ ["sax"] := Dir ]> {[ [] := Dir ]}));
     workDir := [] |}.

(** A server process started with the flag [sax_root] and with the
    environment variable [SAX_ROOT] as given. *)
Definition server_process (flag : string) (env : gmap string string) : Process :=
  {| Args0 := "/usr/bin/admin_server"; saxRoot := flag;
     environ := env; TempDir := "/tmp" |}.

(** A test binary. *)
Definition test_process : Process :=
  {| Args0 := "/build/cloud_test"; saxRoot := "gs://sax/flag/";
     environ := {[ "SAX_ROOT" := "/env/root/" ]}; TempDir := "/tmp" |}.

(** The cell directory [cell] with the subdirectories [a] and [b], made by
    [CreateDir] in the bucket [sax], and the same on the local disk, where
    [a] has a subdirectory of its own. *)
Definition remote_cell_world : World :=
  let w := (CreateDir cloud_world "/gcs/sax/cell" "").1 in
  let w := (CreateDir w "/gcs/sax/cell/a" "").1 in
  (CreateDir w "/gcs/sax/cell/b" "").1.

Definition local_cell_world : World :=
  let w := (CreateDir cloud_world "/sax/cell" "").1 in
  let w := (CreateDir w "/sax/cell/a/deep" "").1 in
  (CreateDir w "/sax/cell/b" "").1.

(** The states a process goes through from a state [r0] with the mutex
    free: the channel that [Lead] makes, the state after [Lead], after
    [close] of that channel, after the receive of the goroutine, and after
    its [Unlock]. *)
Definition first_closer (r0 : Runtime) : nat := length (chans r0).

Definition after_Lead (r0 : Runtime) : Runtime :=
  {| muLeader := true; chans := (chans r0 ++ [ChanOpen])%list;
     routines := [Receiving (first_closer r0)]; crashed := false |}.

Definition after_close (r0 : Runtime) : Runtime :=
  {| muLeader := true; chans := <[first_closer r0 := ChanClosed]> (chans r0 ++ [ChanOpen])%list;
     routines := [Receiving (first_closer r0)]; crashed := false |}.

Definition after_receive (r0 : Runtime) : Runtime :=
  {| muLeader := true; chans := <[first_closer r0 := ChanClosed]> (chans r0 ++ [ChanOpen])%list;
     routines := [Unlocking]; crashed := false |}.

Definition after_Unlock (r0 : Runtime) : Runtime :=
  {| muLeader := false; chans := <[first_closer r0 := ChanClosed]> (chans r0 ++ [ChanOpen])%list;
     routines := []; crashed := false |}.

(** [w'] has everything [w] has: the same client and working directory,
    every object, every local directory, and every local file (with some
    content). *)
Definition grows (w w' : World) : Prop :=
  gcsClient w' = gcsClient w /\
  workDir w' = workDir w /\
  (forall o, is_Some (storage.lookup_object w o) -> is_Some (storage.lookup_object w' o)) /\
  (forall k, localFiles w !! k = Some Dir -> localFiles w' !! k = Some Dir) /\
  (forall k data, localFiles w !! k = Some (File data) ->
     exists data', localFiles w' !! k = Some (File data')).

(** An operation on [path] has left alone the client, the working
    directory and the backend that [path] does not belong to. *)
Definition other_backend_untouched (path : string) (w w' : World) : Prop :=
  gcsClient w' = gcsClient w /\
  workDir w' = workDir w /\
  if strings.HasPrefix path gcsPathPrefix
  then localFiles w' = localFiles w
  else gcsBuckets w' = gcsBuckets w.

(** What [WriteFileAtomically] puts behind the path to name its
    temporary file. *)
Definition temp_suffix (now : Z) (rnd : N) : string :=
  "." ++ fmt_d now ++ "." ++ fmt_016x rnd.

(** A bucket that holds an object whose name itself starts with
    [/gcs/sax/cell/]: the path [/gcs/sax//gcs/sax/cell/x] resolves to the
    bucket [sax] and that object name. *)
Definition odd_names_world : World :=
  (WriteFile cloud_world "/gcs/sax//gcs/sax/cell/x" []).1.

(** ** The process as its callers drive it *)

(** What can happen to the runtime of a process that uses the package: a
    call of [Lead] that returns, a call of [Watch], the [close] of some
    channel by a caller, or a step of a goroutine. *)
Inductive proc_step : Runtime -> Runtime -> Prop :=
| step_Lead r path r' closer err :
    Lead r path = Some (r', (closer, err)) -> proc_step r r'
| step_Watch r path : proc_step r (Watch r path).1
| step_close r c : proc_step r (close_chan r c)
| step_sched r r' : sched r r' -> proc_step r r'.

(** Every step of the process but a [close] of the channel [ch]: calls of
    [Lead] and [Watch] that return, steps of goroutines, and closes of
    other channels. *)
Inductive step_sparing (ch : nat) : Runtime -> Runtime -> Prop :=
| spare_Lead r path r' closer err :
    Lead r path = Some (r', (closer, err)) -> step_sparing ch r r'
| spare_Watch r path : step_sparing ch r (Watch r path).1
| spare_close r c : c <> ch -> step_sparing ch r (close_chan r c)
| spare_sched r r' : sched r r' -> step_sparing ch r r'.

(** The paths [p] and [q] name the same file: they are on the same
    backend and resolve to the same object, or to the same node of the
    local tree. *)
Definition same_file (w : World) (p q : string) : Prop :=
  strings.HasPrefix p gcsPathPrefix = strings.HasPrefix q gcsPathPrefix /\
  if strings.HasPrefix p gcsPathPrefix
  then gcsBucketAndObject w p = gcsBucketAndObject w q
  else os.locate w p = os.locate w q.

(** The invariant of [muLeader]: it is locked exactly while one goroutine
    of [Lead] is pending, and that goroutine waits on a channel that has
    been made. *)
Definition lead_inv (r : Runtime) : Prop :=
  length (routines r) = (if muLeader r then 1 else 0) /\
  forall closer, Receiving closer ∈ routines r -> closer < length (chans r).

(** ** The load-test worker ([custom_tools/locust_worker.go]) *)

Module locust.

(** [os.Setenv(key, value)]: the key may not be empty nor hold [=] or a
    NUL byte, the value may not hold a NUL byte. *)
Definition Setenv (p : Process) (key value : string) : Process * option error :=
  if String.eqb key "" || strings.Contains key "=" || strings.Contains key (String "000" "")
     || strings.Contains value (String "000" "")
  then (p, Some (PathError "setenv" key EINVAL))
  else ({| Args0 := Args0 p; saxRoot := saxRoot p;
           environ := <[key := value]> (environ p); TempDir := TempDir p |}, None).

(** The process after the call of [os.Setenv] in [main]; the error of the
    call is dropped there. *)
Definition main_Setenv (p : Process) : Process :=
  (Setenv p "SAX_ROOT" "gs://jk-saxml-admin-bucket/sax-root").1.

(** One result of [LanguageModel.Generate], of which [lm_generate] reads
    the text. *)
Record GenerateResult := { Text : string }.

(** What [lm_generate] reports to the load generator. *)
Inductive Report :=
| RecordSuccess (requestType name : string) (responseTime responseLength : Z)
| RecordFailure (requestType name : string) (responseTime : Z) (exception : string).

(** A Go [int] (64 bits) after an addition. *)
Definition wrap_int (z : Z) : Z := ((z + 2 ^ 63) mod 2 ^ 64 - 2 ^ 63)%Z.

(** The loop [for _, generate := range response] of [lm_generate]. *)
Fixpoint response_length (response : list GenerateResult) (response_len : Z) : Z :=
  match response with
  | [] => response_len
  | generate :: rest =>
      response_length rest (wrap_int (response_len + Z.of_nat (String.length (Text generate))))
  end.

(** [lm_generate], given what the call of [Generate] returned (the
    results, or the text of its error) and the nanoseconds it took. *)
Definition lm_generate (elapsed : Z) (response : list GenerateResult) (err : option string)
  : Report :=
  match err with
  | None =>
      let response_len := response_length response 0 in
      RecordSuccess "saxml.client" "lm.Generate" (Z.quot elapsed 1000000) response_len
  | Some msg =>
      RecordFailure "saxml.client" "lm.Generate" (Z.quot elapsed 1000000) msg
  end.

End locust.

(** * Properties *)

(** ** Facts about the string functions *)

Section string_facts.

Lemma HasPrefix_app (p r : string) : strings.HasPrefix (p ++ r) p = true.
Proof.
  induction p as [|c p IH]; simpl; [reflexivity|].
  rewrite Ascii.eqb_refl. exact IH.
Qed.

Lemma HasPrefix_inv (s p : string) :
  strings.HasPrefix s p = true -> exists r, s = p ++ r.
Proof.
  revert s. induction p as [|c p IH]; intros s H; simpl in *.
  - exists s. reflexivity.
  - destruct s as [|d s]; [discriminate|].
    apply andb_prop in H as [Hc Hp].
    apply Ascii.eqb_eq in Hc. subst d.
    destruct (IH s Hp) as [r ->]. exists r. reflexivity.
Qed.

Lemma slice_from_app (p r : string) :
  strings.slice_from (String.length p) (p ++ r) = r.
Proof. induction p as [|c p IH]; simpl; [reflexivity | exact IH]. Qed.

Lemma TrimPrefix_app (p r : string) : strings.TrimPrefix (p ++ r) p = r.
Proof.
  unfold strings.TrimPrefix. rewrite HasPrefix_app. apply slice_from_app.
Qed.

Lemma TrimPrefix_other (s p : string) :
  strings.HasPrefix s p = false -> strings.TrimPrefix s p = s.
Proof. unfold strings.TrimPrefix. intros ->. reflexivity. Qed.

(** The flag of [Cut] says whether the separator occurs at all. *)
Lemma Cut_found (s sep : string) :
  (strings.Cut s sep).2 = strings.Contains s sep.
Proof.
  induction s as [|c s IH].
  - simpl. destruct (strings.HasPrefix "" sep); reflexivity.
  - cbn [strings.Cut strings.Contains].
    destruct (strings.HasPrefix (String c s) sep); [reflexivity|].
    rewrite <- IH. destruct (strings.Cut s sep) as [[b a] [|]]; reflexivity.
Qed.

Lemma Cut_not_found (s sep : string) :
  strings.Contains s sep = false -> strings.Cut s sep = (s, "", false).
Proof.
  intros H. pose proof (Cut_found s sep) as Hf. rewrite H in Hf.
  destruct s as [|c s]; cbn [strings.Cut] in *.
  - destruct (strings.HasPrefix "" sep); [discriminate | reflexivity].
  - destruct (strings.HasPrefix (String c s) sep); [discriminate|].
    destruct (strings.Cut s sep) as [[b a] [|]]; [discriminate | reflexivity].
Qed.

Lemma HasPrefix_slice (s p : string) :
  strings.HasPrefix s p = true -> s = p ++ strings.slice_from (String.length p) s.
Proof.
  intros H. destruct (HasPrefix_inv _ _ H) as [r ->].
  rewrite slice_from_app. reflexivity.
Qed.

(** [Cut] splits around an instance of the separator. *)
Lemma Cut_split (s sep before after : string) :
  strings.Cut s sep = (before, after, true) -> s = before ++ sep ++ after.
Proof.
  revert before. induction s as [|c s IH]; intros before H; cbn [strings.Cut] in H.
  - destruct (strings.HasPrefix "" sep) eqn:Hp; [|discriminate].
    injection H as <- <-. apply (HasPrefix_slice _ _ Hp).
  - destruct (strings.HasPrefix (String c s) sep) eqn:Hp.
    + injection H as <- <-. apply (HasPrefix_slice _ _ Hp).
    + destruct (strings.Cut s sep) as [[b a] [|]] eqn:Hc; [|discriminate].
      injection H as <- <-.
      change (String c s = String c (b ++ sep ++ a)).
      f_equal. apply IH. reflexivity.
Qed.

(** With the one-character separator of paths, [Cut] splits at the first
    instance: the part before holds no separator. *)
Lemma Cut_slash_first (s before after : string) :
  strings.Cut s "/" = (before, after, true) -> strings.Contains before "/" = false.
Proof.
  revert before. induction s as [|c s IH]; intros before H; cbn [strings.Cut] in H.
  - simpl in H. discriminate.
  - destruct (strings.HasPrefix (String c s) "/") eqn:Hp.
    + injection H as <- <-. reflexivity.
    + destruct (strings.Cut s "/") as [[b a] [|]] eqn:Hc; [|discriminate].
      injection H as <- <-.
      cbn [strings.Contains]. rewrite (IH b eq_refl).
      cbn [strings.HasPrefix] in Hp |- *. rewrite Hp. reflexivity.
Qed.

End string_facts.

(** ** Resolving a remote path *)

(** C4: the resolver strips [/gcs/] and splits the rest at the first [/]
    into the bucket and the object name; without a storage client it fails
    with the failed-precondition condition, with a client and no [/] in
    the rest with the invalid-argument condition, and it succeeds with the
    pair otherwise. *)
Theorem gcsBucketAndObject_resolves (w : World) (path : string) :
  let rest := strings.TrimPrefix path gcsPathPrefix in
  (forall tail, path = gcsPathPrefix ++ tail -> rest = tail) /\
  (gcsClient w = None ->
   exists err, gcsBucketAndObject w path = Err err /\ failed_precondition err) /\
  (forall client, gcsClient w = Some client ->
   strings.Contains rest "/" = false ->
   exists err, gcsBucketAndObject w path = Err err /\ invalid_argument err) /\
  (forall client, gcsClient w = Some client ->
   strings.Contains rest "/" = true ->
   exists container key,
     gcsBucketAndObject w path
       = Ok ({| bucketName := container |},
             {| objectBucket := container; objectName := key |}) /\
     rest = container ++ "/" ++ key /\
     strings.Contains container "/" = false).
Proof.
  intros rest. repeat split.
  - intros tail ->. apply TrimPrefix_app.
  - intros Hc. unfold gcsBucketAndObject. rewrite Hc. eexists. split; reflexivity.
  - intros client Hc Hno. unfold gcsBucketAndObject. rewrite Hc.
    fold rest. rewrite (Cut_not_found _ _ Hno). eexists. split; reflexivity.
  - intros client Hc Hyes. unfold gcsBucketAndObject. rewrite Hc. fold rest.
    pose proof (Cut_found rest "/") as Hf. rewrite Hyes in Hf.
    destruct (strings.Cut rest "/") as [[b a] found] eqn:Hcut.
    simpl in Hf. subst found.
    exists b, a. split; [reflexivity|]. split.
    + apply Cut_split. exact Hcut.
    + eapply Cut_slash_first. exact Hcut.
Qed.

Lemma gcsBucketAndObject_resolves_witness :
  strings.TrimPrefix "/gcs/sax/cell" gcsPathPrefix = "sax/cell" /\
  (exists err, gcsBucketAndObject offline_world "/gcs/sax" = Err err /\ failed_precondition err) /\
  (exists err, gcsBucketAndObject cloud_world "/gcs/sax" = Err err /\ invalid_argument err) /\
  (exists container key,
     gcsBucketAndObject cloud_world "/gcs/sax/cell/METADATA"
       = Ok ({| bucketName := container |},
             {| objectBucket := container; objectName := key |}) /\
     strings.TrimPrefix "/gcs/sax/cell/METADATA" gcsPathPrefix = container ++ "/" ++ key /\
     strings.Contains container "/" = false).
Proof.
  split; [|split; [|split]].
  - apply (gcsBucketAndObject_resolves cloud_world "/gcs/sax/cell"). reflexivity.
  - apply (gcsBucketAndObject_resolves offline_world "/gcs/sax"). reflexivity.
  - apply (gcsBucketAndObject_resolves cloud_world "/gcs/sax") with (client := storageClient);
      reflexivity.
  - apply (gcsBucketAndObject_resolves cloud_world "/gcs/sax/cell/METADATA")
      with (client := storageClient); reflexivity.
Defined.

(** ** Directories with an ACL *)

(** C5: with a non-empty ACL [CreateDir] fails with the unimplemented
    condition whatever the path is, and it does so before anything is
    resolved or written: the world is returned as it was. *)
Theorem CreateDir_acl_unimplemented (w : World) (path acl : string) :
  acl <> "" ->
  exists err, CreateDir w path acl = (w, Some err) /\ unimplemented err.
Proof.
  intros Hacl. unfold CreateDir.
  destruct (String.eqb_spec acl "") as [->|_]; [contradiction|].
  simpl. eexists. split; reflexivity.
Qed.

Lemma CreateDir_acl_unimplemented_witness :
  exists err,
    CreateDir cloud_world "/gcs/sax/cell" "admins" = (cloud_world, Some err) /\
    unimplemented err.
Proof.
  apply (CreateDir_acl_unimplemented cloud_world "/gcs/sax/cell" "admins").
  discriminate.
Defined.

(** ** Atomic writes on the remote backend *)

Lemma storage_Close_localFiles (w : World) (wr : storage.Writer) :
  localFiles (storage.Close w wr).1 = localFiles w.
Proof.
  unfold storage.Close.
  destruct (storage.validate _); [reflexivity|].
  destruct (gcsBuckets w !! _); reflexivity.
Qed.

Lemma WriteFile_remote_localFiles (w : World) (path : string) (data : bytes) :
  strings.HasPrefix path gcsPathPrefix = true ->
  localFiles (WriteFile w path data).1 = localFiles w.
Proof.
  intros Hp. unfold WriteFile. rewrite Hp.
  destruct (gcsBucketAndObject w path) as [[b o]|err]; [|reflexivity].
  destruct (storage.Write _ data) as [wr|err]; [|reflexivity].
  apply storage_Close_localFiles.
Qed.

(** C8: on a path with the prefix [/gcs/], [WriteFileAtomically] is
    [WriteFile]: the same error and the same world result, whatever the
    clock and the random source give, and no local file (so no temporary
    file, and nothing to rename) is touched. *)
Theorem WriteFileAtomically_remote
  (now : Z) (rnd : N) (w : World) (path : string) (data : bytes) :
  strings.HasPrefix path gcsPathPrefix = true ->
  WriteFileAtomically now rnd w path data = WriteFile w path data /\
  localFiles (WriteFileAtomically now rnd w path data).1 = localFiles w.
Proof.
  intros Hp. assert (WriteFileAtomically now rnd w path data = WriteFile w path data) as E.
  { unfold WriteFileAtomically. rewrite Hp. reflexivity. }
  split; [exact E|]. rewrite E. apply WriteFile_remote_localFiles. exact Hp.
Qed.

Lemma WriteFileAtomically_remote_witness :
  WriteFileAtomically 1667412000000000000 48879 cloud_world "/gcs/sax/cell/location.proto" []
    = WriteFile cloud_world "/gcs/sax/cell/location.proto" [] /\
  localFiles
    (WriteFileAtomically 1667412000000000000 48879 cloud_world "/gcs/sax/cell/location.proto" []).1
    = localFiles cloud_world.
Proof.
  apply (WriteFileAtomically_remote 1667412000000000000 48879 cloud_world
           "/gcs/sax/cell/location.proto" []).
  reflexivity.
Defined.

(** ** Remote operations without a storage client *)

Lemma gcsBucketAndObject_offline (w : World) (path : string) :
  gcsClient w = None ->
  gcsBucketAndObject w path
    = Err (Errorf "no Google Cloud Storage connection: " ErrFailedPrecondition).
Proof. intros H. unfold gcsBucketAndObject. rewrite H. reflexivity. Qed.

(** C10: without a storage client every operation on a path with the
    prefix [/gcs/] ([ReadFile], [WriteFile], [FileExists], [CreateDir],
    [ListSubdirs], [DirExists]) fails with the failed-precondition error
    of the resolver, whether or not the rest of the path holds a [/]: no
    hypothesis on the path is needed, as the resolver looks at the client
    before it looks at the path.  Nothing is changed in the world. *)
Theorem remote_operations_offline (w : World) (path : string) (data : bytes) :
  gcsClient w = None ->
  strings.HasPrefix path gcsPathPrefix = true ->
  let err := Errorf "no Google Cloud Storage connection: " ErrFailedPrecondition in
  failed_precondition err /\
  ReadFile w path = Err err /\
  WriteFile w path data = (w, Some err) /\
  FileExists w path = (false, Some err) /\
  CreateDir w path "" = (w, Some err) /\
  ListSubdirs w path = ([], Some err) /\
  DirExists w path = (false, Some err).
Proof.
  intros Hc Hp err.
  unfold ReadFile, WriteFile, FileExists, CreateDir, ListSubdirs, DirExists.
  rewrite Hp, !(gcsBucketAndObject_offline w _ Hc). simpl.
  repeat split.
Qed.

Lemma remote_operations_offline_witness :
  let err := Errorf "no Google Cloud Storage connection: " ErrFailedPrecondition in
  failed_precondition err /\
  ReadFile offline_world "/gcs/sax" = Err err /\
  WriteFile offline_world "/gcs/sax" [] = (offline_world, Some err) /\
  FileExists offline_world "/gcs/sax" = (false, Some err) /\
  CreateDir offline_world "/gcs/sax" "" = (offline_world, Some err) /\
  ListSubdirs offline_world "/gcs/sax" = ([], Some err) /\
  DirExists offline_world "/gcs/sax" = (false, Some err).
Proof.
  apply (remote_operations_offline offline_world "/gcs/sax" []); reflexivity.
Defined.

(** ** Existence checks on the local backend *)

(** C7: on a local path, [FileExists] on a directory and [DirExists] on a
    file fail with the failed-precondition condition; for both, a stat
    error that [os.IsNotExist] accepts gives [(false, nil)] and any other
    stat error is returned as it is. *)
Theorem exists_checks_local (w : World) (path : string) :
  strings.HasPrefix path gcsPathPrefix = false ->
  (forall fileInfo, os.Stat w path = Ok fileInfo -> os.IsDir fileInfo = true ->
     exists err, FileExists w path = (false, Some err) /\ failed_precondition err) /\
  (forall fileInfo, os.Stat w path = Ok fileInfo -> os.IsDir fileInfo = false ->
     exists err, DirExists w path = (false, Some err) /\ failed_precondition err) /\
  (forall err, os.Stat w path = Err err -> os_IsNotExist err = true ->
     FileExists w path = (false, None) /\ DirExists w path = (false, None)) /\
  (forall err, os.Stat w path = Err err -> os_IsNotExist err = false ->
     FileExists w path = (false, Some err) /\ DirExists w path = (false, Some err)).
Proof.
  intros Hp. unfold FileExists, DirExists. rewrite Hp.
  split; [|split; [|split]].
  - intros fi -> ->. eexists. split; reflexivity.
  - intros fi -> ->. eexists. split; reflexivity.
  - intros err -> ->. split; reflexivity.
  - intros err -> ->. split; reflexivity.
Qed.

Lemma exists_checks_local_witness :
  (exists err, FileExists disk_world "/sax/cell" = (false, Some err) /\
               failed_precondition err) /\
  (exists err, DirExists disk_world "/sax/cell/location.proto" = (false, Some err) /\
               failed_precondition err) /\
  (FileExists disk_world "/sax/other" = (false, None) /\
   DirExists disk_world "/sax/other" = (false, None)) /\
  (FileExists disk_world "/sax/cell/location.proto/x"
     = (false, Some (PathError "stat" "/sax/cell/location.proto/x" ENOTDIR)) /\
   DirExists disk_world "/sax/cell/location.proto/x"
     = (false, Some (PathError "stat" "/sax/cell/location.proto/x" ENOTDIR))).
Proof.
  split; [|split; [|split]].
  - apply (exists_checks_local disk_world "/sax/cell" eq_refl)
      with (fileInfo := {| os.IsDir := true; os.Size := 0 |});
      vm_compute; reflexivity.
  - apply (exists_checks_local disk_world "/sax/cell/location.proto" eq_refl)
      with (fileInfo := {| os.IsDir := false; os.Size := 0 |});
      vm_compute; reflexivity.
  - apply (exists_checks_local disk_world "/sax/other" eq_refl)
      with (err := PathError "stat" "/sax/other" ENOENT);
      vm_compute; reflexivity.
  - apply (exists_checks_local disk_world "/sax/cell/location.proto/x" eq_refl)
      with (err := PathError "stat" "/sax/cell/location.proto/x" ENOTDIR);
      vm_compute; reflexivity.
Defined.

(** ** The root directory *)

Lemma toInternal_url (rest : string) :
  toInternal (gcsURLPrefix ++ rest) = gcsPathPrefix ++ rest.
Proof.
  unfold toInternal. rewrite HasPrefix_app, slice_from_app. reflexivity.
Qed.

Lemma toInternal_other (s : string) :
  strings.HasPrefix s gcsURLPrefix = false -> toInternal s = s.
Proof. unfold toInternal. intros ->. reflexivity. Qed.

(** What [RootDir] does to a configured value is the conversion of the
    spec. *)
Lemma RootDir_conversion (s : string) :
  (if strings.HasPrefix s gcsURLPrefix
   then Returns (gcsPathPrefix ++ strings.TrimPrefix s gcsURLPrefix)
   else Returns s) = Returns (toInternal s).
Proof.
  unfold toInternal, strings.TrimPrefix.
  destruct (strings.HasPrefix s gcsURLPrefix); reflexivity.
Qed.

(** C3: [RootDir] takes the first of: the test directory when the program
    is a test binary; the value of the flag when it is not empty,
    converted; the value of the environment variable when it is not empty,
    converted; and ends the process when there is none.  The conversion
    replaces a leading [gs://] by [/gcs/] and changes nothing else. *)
Theorem RootDir_precedence (p : Process) :
  (strings.Contains (Args0 p) "_test" = true ->
     RootDir p = Returns (filepath.Join (TempDir p) "sax-test-root")) /\
  (strings.Contains (Args0 p) "_test" = false -> saxRoot p <> "" ->
     RootDir p = Returns (toInternal (saxRoot p))) /\
  (strings.Contains (Args0 p) "_test" = false -> saxRoot p = "" ->
   Getenv p "SAX_ROOT" <> "" ->
     RootDir p = Returns (toInternal (Getenv p "SAX_ROOT"))) /\
  (strings.Contains (Args0 p) "_test" = false -> saxRoot p = "" ->
   Getenv p "SAX_ROOT" = "" ->
     exists msg, RootDir p = Fatal msg) /\
  (forall rest, toInternal ("gs://" ++ rest) = "/gcs/" ++ rest) /\
  (forall s, strings.HasPrefix s "gs://" = false -> toInternal s = s).
Proof.
  unfold RootDir. split; [|split; [|split; [|split; [|split]]]].
  - intros ->. reflexivity.
  - intros -> Hflag.
    destruct (String.eqb_spec (saxRoot p) "") as [E|_]; [contradiction|].
    apply RootDir_conversion.
  - intros -> -> Henv. simpl.
    destruct (String.eqb_spec (Getenv p "SAX_ROOT") "") as [E|_]; [contradiction|].
    apply RootDir_conversion.
  - intros -> -> ->. simpl. eexists. reflexivity.
  - apply toInternal_url.
  - apply toInternal_other.
Qed.

Lemma RootDir_precedence_witness :
  RootDir test_process = Returns "/tmp/sax-test-root" /\
  RootDir (server_process "gs://sax/flag/" {[ "SAX_ROOT" := "/env/root/" ]})
    = Returns "/gcs/sax/flag/" /\
  RootDir (server_process "" {[ "SAX_ROOT" := "gs://sax/env/" ]})
    = Returns "/gcs/sax/env/" /\
  (exists msg, RootDir (server_process "" ∅) = Fatal msg).
Proof.
  split; [|split; [|split]].
  - destruct (RootDir_precedence test_process) as (H & _).
    etransitivity; [apply H; reflexivity | vm_compute; reflexivity].
  - destruct (RootDir_precedence
                (server_process "gs://sax/flag/" {[ "SAX_ROOT" := "/env/root/" ]}))
      as (_ & H & _).
    etransitivity; [apply H; [reflexivity | discriminate] | vm_compute; reflexivity].
  - destruct (RootDir_precedence (server_process "" {[ "SAX_ROOT" := "gs://sax/env/" ]}))
      as (_ & _ & H & _).
    etransitivity;
      [apply H; [reflexivity | reflexivity | vm_compute; discriminate]
      | vm_compute; reflexivity].
  - destruct (RootDir_precedence (server_process "" ∅)) as (_ & _ & _ & H & _).
    apply H; reflexivity.
Defined.

(** ** Watching a file *)

(** Goroutines never make, close or send on a channel. *)
Lemma sched_chans (r r' : Runtime) : sched r r' -> chans r' = chans r.
Proof.
  intros [r0 i r0' _ Hstep]. unfold routine_step in Hstep.
  destruct (routines r0 !! i) as [[closer|]|]; [| |discriminate].
  - destruct (chans r0 !! closer) as [[|]|]; try discriminate.
    injection Hstep as <-. reflexivity.
  - injection Hstep as <-. reflexivity.
Qed.

Lemma rtc_sched_chans (r r' : Runtime) : rtc sched r r' -> chans r' = chans r.
Proof.
  induction 1 as [|r1 r2 r3 H12 _ IH]; [reflexivity|].
  rewrite IH. apply sched_chans. exact H12.
Qed.

(** C2, as stated, fails: [Watch] returns a nil error, so it does not fail
    with the unimplemented condition (nor with any other). *)
Lemma Watch_does_not_fail :
  Watch startup "/sax/cell/location.proto"
    = ({| muLeader := false; chans := [ChanOpen]; routines := []; crashed := false |},
       (0, None)) /\
  ~ (exists err, (Watch startup "/sax/cell/location.proto").2.2 = Some err /\ unimplemented err).
Proof.
  split; [reflexivity|]. intros (err & H & _). discriminate H.
Qed.

Lemma step_sparing_chans (ch : nat) (r r' : Runtime) :
  step_sparing ch r r' ->
  chans r !! ch = Some ChanOpen -> chans r' !! ch = Some ChanOpen.
Proof.
  intros Hstep Hch. destruct Hstep as [r path r' closer err H|r path|r c Hc|r r' H].
  - unfold Lead in H. destruct (muLeader r); [discriminate|].
    injection H as <- _ _. simpl. apply lookup_app_l_Some. exact Hch.
  - simpl. apply lookup_app_l_Some. exact Hch.
  - unfold close_chan. destruct (chans r !! c) as [[|]|]; simpl; try exact Hch.
    rewrite list_lookup_insert_ne by exact Hc. exact Hch.
  - rewrite (sched_chans _ _ H). exact Hch.
Qed.

Lemma rtc_step_sparing_chans (ch : nat) (r r' : Runtime) :
  rtc (step_sparing ch) r r' ->
  chans r !! ch = Some ChanOpen -> chans r' !! ch = Some ChanOpen.
Proof.
  induction 1 as [|r1 r2 r3 H12 _ IH]; [auto|].
  intros Hch. apply IH. apply (step_sparing_chans _ _ _ H12 Hch).
Qed.

(** C2, amended: for every path [Watch] succeeds; it returns a nil error
    and a channel made by the call, open, and it changes nothing else.
    The package never closes that channel and never sends on it: it stays
    open through all that the process does afterwards, be it goroutine
    steps, further calls of [Lead] and [Watch], or closes of other
    channels. *)
Theorem Watch_no_op_channel (r : Runtime) (path : string) :
  exists r' ch,
    Watch r path = (r', (ch, None)) /\
    chans r !! ch = None /\
    chans r' = (chans r ++ [ChanOpen])%list /\
    chans r' !! ch = Some ChanOpen /\
    muLeader r' = muLeader r /\ routines r' = routines r /\ crashed r' = crashed r /\
    (forall r'', rtc sched r' r'' -> chans r'' !! ch = Some ChanOpen) /\
    (forall r'', rtc (step_sparing ch) r' r'' -> chans r'' !! ch = Some ChanOpen).
Proof.
  eexists _, _. split; [reflexivity|]. simpl.
  assert ((chans r ++ [ChanOpen])%list !! length (chans r) = Some ChanOpen) as Hnew.
  { apply list_lookup_middle. reflexivity. }
  split; [apply lookup_ge_None; lia|]. split; [reflexivity|]. split; [exact Hnew|].
  split; [reflexivity|]. split; [reflexivity|]. split; [reflexivity|]. split.
  - intros r'' Hrun. rewrite (rtc_sched_chans _ _ Hrun). exact Hnew.
  - intros r'' Hrun. apply (rtc_step_sparing_chans _ _ _ Hrun). exact Hnew.
Qed.

(** ** Leader election *)

Lemma Lead_ignores_path (r : Runtime) (p p' : string) : Lead r p = Lead r p'.
Proof. reflexivity. Qed.

Section two_leaders.

Local Open Scope list_scope.

(** A process in which nobody holds [muLeader] and no goroutine of an
    earlier [Lead] is left. *)
Variable r0 : Runtime.
Hypothesis free : muLeader r0 = false.
Hypothesis quiet : routines r0 = [].
Hypothesis alive : crashed r0 = false.

Lemma first_Lead (p : string) : Lead r0 p = Some (after_Lead r0, (first_closer r0, None)).
Proof.
  unfold Lead, make_chan, go, after_Lead, first_closer.
  rewrite free, quiet, alive. reflexivity.
Qed.

Lemma closer_open : (chans r0 ++ [ChanOpen]) !! first_closer r0 = Some ChanOpen.
Proof. apply list_lookup_middle. reflexivity. Qed.

Lemma closer_closed :
  <[first_closer r0 := ChanClosed]> (chans r0 ++ [ChanOpen]) !! first_closer r0
    = Some ChanClosed.
Proof.
  apply list_lookup_insert_eq. rewrite length_app. simpl. unfold first_closer. lia.
Qed.

Lemma close_first : close_chan (after_Lead r0) (first_closer r0) = after_close r0.
Proof. unfold close_chan. simpl. rewrite closer_open. reflexivity. Qed.

(** While the channel is open the goroutine cannot move. *)
Lemma after_Lead_stuck (r : Runtime) : ~ sched (after_Lead r0) r.
Proof.
  inversion 1 as [? i ? _ Hstep]; subst. unfold routine_step in Hstep. simpl in Hstep.
  destruct i as [|i]; simpl in Hstep; [|discriminate].
  rewrite closer_open in Hstep. discriminate.
Qed.

Lemma after_Lead_only (r : Runtime) : rtc sched (after_Lead r0) r -> r = after_Lead r0.
Proof.
  intros H. apply rtc_inv in H as [->|(r' & Hstep & _)]; [reflexivity|].
  destruct (after_Lead_stuck _ Hstep).
Qed.

(** Once it is closed the goroutine does its two steps, and no other
    step exists. *)
Lemma after_close_step (r : Runtime) : sched (after_close r0) r <-> r = after_receive r0.
Proof.
  split.
  - inversion 1 as [? i ? _ Hstep]; subst. unfold routine_step in Hstep. simpl in Hstep.
    destruct i as [|i]; simpl in Hstep; [|discriminate].
    rewrite closer_closed in Hstep. injection Hstep as <-. reflexivity.
  - intros ->. apply (sched_routine (after_close r0) 0); [reflexivity|].
    unfold routine_step. simpl. rewrite closer_closed. reflexivity.
Qed.

Lemma after_receive_step (r : Runtime) : sched (after_receive r0) r <-> r = after_Unlock r0.
Proof.
  split.
  - inversion 1 as [? i ? _ Hstep]; subst. unfold routine_step in Hstep. simpl in Hstep.
    destruct i as [|i]; simpl in Hstep; [|discriminate].
    injection Hstep as <-. reflexivity.
  - intros ->. apply (sched_routine (after_receive r0) 0); reflexivity.
Qed.

Lemma after_Unlock_stuck (r : Runtime) : ~ sched (after_Unlock r0) r.
Proof.
  inversion 1 as [? i ? _ Hstep]; subst. unfold routine_step in Hstep. simpl in Hstep.
  destruct i; discriminate.
Qed.

Lemma after_close_runs (n : nat) (r : Runtime) :
  nsteps sched n (after_close r0) r ->
  (n = 0 /\ r = after_close r0) \/ (n = 1 /\ r = after_receive r0) \/
  (n = 2 /\ r = after_Unlock r0).
Proof.
  intros H. inversion H as [|n1 ? ra ? Ha H1]; subst; [auto|].
  apply after_close_step in Ha. subst ra.
  inversion H1 as [|n2 ? rb ? Hb H2]; subst; [auto|].
  apply after_receive_step in Hb. subst rb.
  inversion H2 as [|n3 ? rc ? Hc H3]; subst; [auto|].
  destruct (after_Unlock_stuck _ Hc).
Qed.

(** With the mutex free again a second [Lead] returns, like the first. *)
Lemma second_Lead (p : string) :
  exists r closer, Lead (after_Unlock r0) p = Some (r, (closer, None)).
Proof. eexists _, _. reflexivity. Qed.

(** C9: in a process where [muLeader] is free, a first [Lead] returns at
    once with a channel and a nil error.  If that channel is never
    closed, a second [Lead] stays blocked in every state the process can
    reach.  If it is closed, the process cannot run for more than two
    steps without the second [Lead], in every state it reaches either a
    goroutine can step or the second [Lead] returns, and the state two
    steps on is one where it returns, with a nil error.  The paths play
    no role: the two calls may name the same file or different ones. *)
Theorem Lead_twice (p1 p2 : string) :
  exists r1 closer,
    Lead r0 p1 = Some (r1, (closer, None)) /\
    (forall r, rtc sched r1 r -> Lead r p2 = None) /\
    (forall n r, nsteps sched n (close_chan r1 closer) r ->
       n <= 2 /\
       ((exists r', sched r r') \/
        (exists r' closer', Lead r p2 = Some (r', (closer', None))))) /\
    (exists r, nsteps sched 2 (close_chan r1 closer) r /\
       exists r' closer', Lead r p2 = Some (r', (closer', None))) /\
    (forall r p p', Lead r p = Lead r p').
Proof.
  exists (after_Lead r0), (first_closer r0). split; [apply first_Lead|].
  split; [|split; [|split]].
  - intros r Hr. rewrite (after_Lead_only _ Hr). reflexivity.
  - intros n r. rewrite close_first. intros Hrun.
    destruct (after_close_runs _ _ Hrun) as [[-> ->]|[[-> ->]|[-> ->]]].
    + split; [lia|]. left. exists (after_receive r0). apply after_close_step. reflexivity.
    + split; [lia|]. left. exists (after_Unlock r0). apply after_receive_step. reflexivity.
    + split; [lia|]. right. apply second_Lead.
  - exists (after_Unlock r0). rewrite close_first. split.
    + apply (nsteps_l _ _ _ (after_receive r0)); [apply after_close_step; reflexivity|].
      apply (nsteps_l _ _ _ (after_Unlock r0)); [apply after_receive_step; reflexivity|].
      apply nsteps_O.
    + apply second_Lead.
  - intros r p p'. apply Lead_ignores_path.
Qed.

End two_leaders.

Lemma Lead_twice_witness :
  exists r1 closer,
    Lead startup "/sax/cell/leader" = Some (r1, (closer, None)) /\
    (forall r, rtc sched r1 r -> Lead r "/sax/other/leader" = None) /\
    (forall n r, nsteps sched n (close_chan r1 closer) r ->
       n <= 2 /\
       ((exists r', sched r r') \/
        (exists r' closer', Lead r "/sax/other/leader" = Some (r', (closer', None))))) /\
    (exists r, nsteps sched 2 (close_chan r1 closer) r /\
       exists r' closer', Lead r "/sax/other/leader" = Some (r', (closer', None))) /\
    (forall r p p', Lead r p = Lead r p').
Proof.
  apply (Lead_twice startup); reflexivity.
Defined.

(** ** Creating a directory and finding it *)

(** The resolver reads nothing of the world but the storage client. *)
Lemma gcsBucketAndObject_client (w w' : World) (path : string) :
  gcsClient w' = gcsClient w -> gcsBucketAndObject w' path = gcsBucketAndObject w path.
Proof. intros H. unfold gcsBucketAndObject. rewrite H. reflexivity. Qed.

Lemma gcsBucketAndObject_names (w : World) (path : string)
  (bucket : BucketHandle) (object : ObjectHandle) :
  gcsBucketAndObject w path = Ok (bucket, object) ->
  objectBucket object = bucketName bucket /\
  strings.TrimPrefix path gcsPathPrefix = objectBucket object ++ "/" ++ objectName object.
Proof.
  unfold gcsBucketAndObject. destruct (gcsClient w) as [client|]; [|discriminate].
  destruct (strings.Cut _ "/") as [[b o] [|]] eqn:Hcut; [|discriminate].
  intros H. injection H as <- <-. split; [reflexivity|].
  apply Cut_split. exact Hcut.
Qed.

(** What a successful [Close] of a writer has done. *)
Lemma storage_Close_ok (w w' : World) (wr : storage.Writer) :
  storage.Close w wr = (w', None) ->
  storage.validate (storage.writerObject wr) = None /\
  storage.lookup_object w' (storage.writerObject wr) = Some (storage.writerData wr) /\
  (forall o, o <> storage.writerObject wr ->
     storage.lookup_object w' o = storage.lookup_object w o) /\
  gcsClient w' = gcsClient w /\ localFiles w' = localFiles w /\ workDir w' = workDir w.
Proof.
  unfold storage.Close. destruct wr as [[b k] data]. simpl.
  destruct (storage.validate _) as [err|] eqn:Hv; [discriminate|].
  destruct (gcsBuckets w !! b) as [objs|] eqn:Hb; [|discriminate].
  intros H. injection H as <-. split; [reflexivity|].
  unfold storage.lookup_object. simpl. split; [|split; [|auto]].
  - rewrite lookup_insert_eq. simpl. apply lookup_insert_eq.
  - intros [b' k'] Hne. simpl. destruct (decide (b = b')) as [<-|Hbb].
    + rewrite lookup_insert_eq, Hb. simpl.
      apply lookup_insert_ne. congruence.
    + rewrite lookup_insert_ne by exact Hbb. reflexivity.
Qed.

(** [Attrs] of a well-named object tells whether the object is there. *)
Lemma storage_Attrs_lookup (w : World) (o : ObjectHandle) :
  storage.validate o = None ->
  match storage.lookup_object w o with
  | Some _ => exists attrs, storage.Attrs w o = Ok attrs
  | None => storage.Attrs w o = Err ErrObjectNotExist
  end.
Proof.
  intros Hv. unfold storage.Attrs. rewrite Hv.
  destruct (storage.lookup_object w o); [eexists|]; reflexivity.
Qed.

(** On the way to a directory that [mkdir_walk] has made, every node is a
    directory, and the directories there were before are still there. *)
Lemma mkdir_walk_walk (elems : list string) :
  forall (fs fs' : gmap (list string) Node) (cur : list string),
    os.mkdir_walk fs cur elems = inr fs' ->
    (forall k, fs !! k = Some Dir -> fs' !! k = Some Dir) /\
    exists key, os.walk fs' cur elems = inr key /\ fs' !! key = Some Dir.
Proof.
  induction elems as [|c rest IH]; intros fs fs' cur H; cbn [os.mkdir_walk] in H.
  - destruct (fs !! cur) as [[data|]|] eqn:Hcur; try discriminate.
    injection H as <-. split; [auto|]. exists cur. split; [reflexivity | exact Hcur].
  - destruct (fs !! cur) as [[data|]|] eqn:Hcur; try discriminate.
    destruct (fs !! os.step cur c) as [n|] eqn:Hnext.
    + destruct (IH _ _ _ H) as (Hmono & key & Hwalk & Hkey).
      split; [exact Hmono|]. exists key. split; [|exact Hkey].
      cbn [os.walk]. rewrite (Hmono _ Hcur). exact Hwalk.
    + destruct (os.is_name c); [|discriminate].
      destruct (IH _ _ _ H) as (Hmono & key & Hwalk & Hkey).
      assert (forall k, fs !! k = Some Dir -> fs' !! k = Some Dir) as Hmono'.
      { intros k Hk. apply Hmono. rewrite lookup_insert_ne; [exact Hk|].
        intros E. rewrite E in Hnext. congruence. }
      split; [exact Hmono'|]. exists key. split; [|exact Hkey].
      cbn [os.walk]. rewrite (Hmono' _ Hcur). exact Hwalk.
Qed.

Lemma MkdirAll_Stat (w w' : World) (path : string) :
  os.MkdirAll w path = (w', None) ->
  os.Stat w' path = Ok {| os.IsDir := true; os.Size := 0 |} /\
  gcsBuckets w' = gcsBuckets w /\ gcsClient w' = gcsClient w.
Proof.
  unfold os.MkdirAll, os.Stat, os.locate.
  destruct (String.eqb path ""); [discriminate|].
  destruct (os.mkdir_walk _ _ _) as [errno|fs] eqn:Hmk; [discriminate|].
  intros H. injection H as <-.
  destruct (mkdir_walk_walk _ _ _ _ Hmk) as (_ & key & Hwalk & Hkey).
  split; [|split; reflexivity].
  change (os.start (set_localFiles w fs) path) with (os.start w path).
  simpl. rewrite Hwalk, Hkey. reflexivity.
Qed.

(** C6: after a successful [CreateDir] with no ACL, [DirExists] on the
    same path, in the world that [CreateDir] left, returns true and no
    error.  On a remote path both resolve [filepath.Join(path, "METADATA")]
    to the same marker object: [CreateDir] has written it with no content,
    leaving every other object and the local files as they were, and the
    answer of [DirExists] is whether that object is there.  On a local
    path [CreateDir] is [os.MkdirAll] and the path is then a directory for
    [os.Stat]. *)
Theorem CreateDir_DirExists (w w' : World) (path : string) :
  CreateDir w path "" = (w', None) ->
  DirExists w' path = (true, None) /\
  (strings.HasPrefix path gcsPathPrefix = true ->
   exists bucket marker,
     gcsBucketAndObject w (filepath.Join path metadataFile) = Ok (bucket, marker) /\
     strings.TrimPrefix (filepath.Join path metadataFile) gcsPathPrefix
       = objectBucket marker ++ "/" ++ objectName marker /\
     storage.lookup_object w' marker = Some [] /\
     (forall o, o <> marker -> storage.lookup_object w' o = storage.lookup_object w o) /\
     localFiles w' = localFiles w /\
     (forall w'', gcsClient w'' = gcsClient w ->
        DirExists w'' path
          = (bool_decide (is_Some (storage.lookup_object w'' marker)), None))) /\
  (strings.HasPrefix path gcsPathPrefix = false ->
   os.MkdirAll w path = (w', None) /\
   os.Stat w' path = Ok {| os.IsDir := true; os.Size := 0 |} /\
   gcsBuckets w' = gcsBuckets w).
Proof.
  intros Hcreate. unfold CreateDir in Hcreate.
  change (String.eqb "" "") with true in Hcreate. cbn [negb] in Hcreate.
  destruct (strings.HasPrefix path gcsPathPrefix) eqn:Hp.
  - destruct (gcsBucketAndObject w _) as [[bucket marker]|err] eqn:Hres; [|discriminate].
    destruct (storage_Close_ok _ _ _ Hcreate) as (Hv & Hnew & Hkeep & Hcl & Hfs & _).
    simpl in Hv, Hnew, Hkeep.
    assert (forall w'', gcsClient w'' = gcsClient w ->
              DirExists w'' path
                = (bool_decide (is_Some (storage.lookup_object w'' marker)), None)) as Hex.
    { intros w'' Hc. unfold DirExists.
      rewrite Hp, (gcsBucketAndObject_client _ _ _ Hc), Hres.
      pose proof (storage_Attrs_lookup w'' marker Hv) as Ha.
      destruct (storage.lookup_object w'' marker) as [data|].
      - destruct Ha as [attrs ->]. reflexivity.
      - rewrite Ha. reflexivity. }
    split; [|split; [|discriminate]].
    + rewrite (Hex w' Hcl), Hnew. reflexivity.
    + intros _. exists bucket, marker. split; [reflexivity|].
      split; [apply (gcsBucketAndObject_names _ _ _ _ Hres)|]. auto.
  - destruct (MkdirAll_Stat _ _ _ Hcreate) as (Hstat & Hb & _).
    split; [|split; [discriminate|]].
    + unfold DirExists. rewrite Hp, Hstat. reflexivity.
    + intros _. auto.
Qed.

Lemma CreateDir_DirExists_witness :
  (DirExists (CreateDir cloud_world "/gcs/sax/cell" "").1 "/gcs/sax/cell" = (true, None) /\
   storage.lookup_object (CreateDir cloud_world "/gcs/sax/cell" "").1
     {| objectBucket := "sax"; objectName := "cell/METADATA" |} = Some []) /\
  (DirExists (CreateDir cloud_world "/sax/cell" "").1 "/sax/cell" = (true, None) /\
   os.Stat (CreateDir cloud_world "/sax/cell" "").1 "/sax/cell"
     = Ok {| os.IsDir := true; os.Size := 0 |}).
Proof.
  split.
  - destruct (CreateDir_DirExists cloud_world (CreateDir cloud_world "/gcs/sax/cell" "").1
                "/gcs/sax/cell") as (Hex & Hremote & _).
    { vm_compute. reflexivity. }
    split; [exact Hex|].
    destruct (Hremote eq_refl) as (bucket & marker & Hres & _ & Hnew & _).
    vm_compute in Hres. injection Hres as <- <-. exact Hnew.
  - destruct (CreateDir_DirExists cloud_world (CreateDir cloud_world "/sax/cell" "").1
                "/sax/cell") as (Hex & _ & Hlocal).
    { vm_compute. reflexivity. }
    split; [exact Hex|]. apply (Hlocal eq_refl).
Defined.

(** ** Listing subdirectories *)

Lemma string_app_assoc (a b c : string) : (a ++ b) ++ c = a ++ (b ++ c).
Proof.
  induction a as [|x a IH]; [reflexivity|].
  change (String x ((a ++ b) ++ c) = String x (a ++ (b ++ c))). f_equal. exact IH.
Qed.

Lemma HasPrefix_trans (s p q : string) :
  strings.HasPrefix s p = true -> strings.HasPrefix p q = true ->
  strings.HasPrefix s q = true.
Proof.
  intros Hsp Hpq.
  destruct (HasPrefix_inv _ _ Hsp) as [r ->].
  destruct (HasPrefix_inv _ _ Hpq) as [r' ->].
  rewrite string_app_assoc. apply HasPrefix_app.
Qed.

(** The loop of [ListSubdirs] returns the [Name] of every entry. *)
Lemma collect_names_ok (it : list (result storage.ObjectAttrs)) :
  forall (subDirs names : list string),
    collect_names it subDirs = (names, None) ->
    forall n, n ∈ names -> n ∈ subDirs \/ exists attrs, Ok attrs ∈ it /\ storage.Name attrs = n.
Proof.
  induction it as [|[attrs|err] it IH]; intros subDirs names H n Hn; simpl in H.
  - injection H as <-. left. exact Hn.
  - destruct (IH _ _ H n Hn) as [Hin|(attrs' & Hin & Hname)].
    + apply elem_of_app in Hin as [Hin|Hin]; [left; exact Hin|].
      apply list_elem_of_singleton in Hin. right. exists attrs. split; [left | auto].
    + right. exists attrs'. split; [right; exact Hin | exact Hname].
  - discriminate.
Qed.

(** An entry of a listing is an object whose name starts with the prefix
    of the query, or a synthetic entry, whose [Name] is empty. *)
Lemma Objects_names (w : World) (b : BucketHandle) (q : storage.Query)
  (attrs : storage.ObjectAttrs) :
  Ok attrs ∈ storage.Objects w b q ->
  storage.Name attrs = "" \/ strings.HasPrefix (storage.Name attrs) (storage.Prefix q) = true.
Proof.
  unfold storage.Objects.
  destruct (String.eqb (bucketName b) "").
  { intros H. apply list_elem_of_singleton in H. discriminate. }
  destruct (gcsBuckets w !! bucketName b) as [objs|].
  2:{ intros H. apply list_elem_of_singleton in H. discriminate. }
  intros H. apply elem_of_app in H as [H|H]; apply list_elem_of_fmap in H as (x & Hx & Hin).
  - injection Hx as ->. right. simpl.
    apply list_elem_of_omap in Hin as ([n|p] & Hin & Hsel); [|discriminate].
    injection Hsel as ->.
    apply list_elem_of_omap in Hin as (name & _ & Hcl).
    unfold storage.classify in Hcl.
    destruct (strings.HasPrefix name (storage.Prefix q)) eqn:Hp; [|discriminate].
    destruct (String.eqb (storage.Delimiter q) "").
    + injection Hcl as ->. exact Hp.
    + destruct (strings.Cut _ _) as [[? ?] [|]]; [discriminate|].
      injection Hcl as ->. exact Hp.
  - injection Hx as ->. left. reflexivity.
Qed.

(** On a remote path no name that [ListSubdirs] returns is the bare name
    of a child: a name is empty or carries the whole path, [/gcs/]
    included, in front. *)
Lemma ListSubdirs_remote_names (w : World) (path : string) (names : list string) :
  strings.HasPrefix path gcsPathPrefix = true ->
  ListSubdirs w path = (names, None) ->
  forall n, n ∈ names -> n = "" \/ strings.HasPrefix n path = true.
Proof.
  intros Hp. unfold ListSubdirs. rewrite Hp.
  destruct (gcsBucketAndObject w path) as [[bucket object]|err]; [|discriminate].
  intros H n Hn.
  destruct (collect_names_ok _ _ _ H n Hn) as [Hin|(attrs & Hin & <-)].
  - inversion Hin.
  - apply (Objects_names _ _ _ _ Hin).
Qed.

Lemma below_spec (dir key tail : list string) :
  os.below dir key = Some tail <-> key = (dir ++ tail)%list.
Proof.
  revert key. induction dir as [|d dir IH]; intros key; simpl.
  - split; [intros H; injection H as ->; reflexivity | intros ->; reflexivity].
  - destruct key as [|k key]; [split; discriminate|].
    destruct (String.eqb_spec d k) as [->|Hne].
    + rewrite IH. split; [intros ->; reflexivity | intros H; injection H as ->; reflexivity].
    + split; [discriminate | intros H; injection H as -> _; contradiction].
Qed.

(** The children of a directory are the names one element below it. *)
Lemma children_spec (fs : gmap (list string) Node) (dir : list string) (name : string) :
  name ∈ os.children fs dir <-> is_Some (fs !! (dir ++ [name])%list).
Proof.
  unfold os.children. rewrite list_elem_of_omap. split.
  - intros (k & Hk & Hsel).
    apply list_elem_of_fmap in Hk as ([k' n] & -> & Hin). simpl in Hsel.
    apply elem_of_map_to_list in Hin.
    destruct (os.below dir k') as [[|x [|y tail]]|] eqn:Hb; try discriminate.
    injection Hsel as ->. apply below_spec in Hb. subst k'. eauto.
  - intros [n Hn]. exists (dir ++ [name])%list. split.
    + apply list_elem_of_fmap. exists ((dir ++ [name])%list, n). split; [reflexivity|].
      apply elem_of_map_to_list. exact Hn.
    + rewrite (proj2 (below_spec dir _ [name]) eq_refl). reflexivity.
Qed.

Lemma sort_names_elem (n : string) (l : list string) : n ∈ sort_names l <-> n ∈ l.
Proof. unfold sort_names. rewrite merge_sort_Permutation. reflexivity. Qed.

(** On a local path [ListSubdirs] returns the names of the entries of the
    directory, one level down and no further. *)
Lemma ListSubdirs_local_names (w : World) (path : string) (dir : list string) :
  strings.HasPrefix path gcsPathPrefix = false ->
  os.locate w path = inr dir ->
  localFiles w !! dir = Some Dir ->
  exists names,
    ListSubdirs w path = (names, None) /\
    forall n, n ∈ names <-> is_Some (localFiles w !! (dir ++ [n])%list).
Proof.
  intros Hp Hloc Hdir. unfold ListSubdirs, os.ReadDir. rewrite Hp, Hloc, Hdir.
  eexists. split; [reflexivity|]. intros n.
  rewrite <- children_spec, <- (sort_names_elem n (os.children (localFiles w) dir)). split.
  - intros H. apply list_elem_of_fmap in H as (e & -> & H).
    apply list_elem_of_fmap in H as (x & -> & H). exact H.
  - intros H. apply list_elem_of_fmap. exists {| os.Name := n |}.
    split; [reflexivity|]. apply list_elem_of_fmap. exists n. auto.
Qed.

(** The objects of the bucket [sax] in [remote_cell_world], and what a
    query with the object name of the directory as its prefix lists: the
    marker of the directory and one synthetic entry for each
    subdirectory. *)
Lemma remote_cell_world_objects :
  gcsBuckets remote_cell_world
    = {[ "sax" := {[ "cell/METADATA" := []; "cell/a/METADATA" := [];
                     "cell/b/METADATA" := [] ]} ]} /\
  storage.Objects remote_cell_world {| bucketName := "sax" |}
      {| storage.Prefix := "cell/"; storage.Delimiter := "/" |}
    = [ Ok {| storage.Name := "cell/METADATA"; storage.AttrPrefix := ""; storage.Size := 0 |};
        Ok {| storage.Name := ""; storage.AttrPrefix := "cell/a/"; storage.Size := 0 |};
        Ok {| storage.Name := ""; storage.AttrPrefix := "cell/b/"; storage.Size := 0 |} ].
Proof. split; vm_compute; reflexivity. Qed.

(** C1 fails on the remote backend.  In the bucket [sax] the directory
    [/gcs/sax/cell] and its two subdirectories [a] and [b] exist, as
    [DirExists] confirms, and [ListSubdirs] finds neither, with or without
    a closing [/]: it queries the bucket with the whole internal path as
    the prefix, while the objects are named from behind the bucket name
    ([cell/a/METADATA]).  On the local backend the same tree is listed as
    C1 says, grandchildren left out. *)
Theorem ListSubdirs_remote_misses_subdirs :
  DirExists remote_cell_world "/gcs/sax/cell" = (true, None) /\
  DirExists remote_cell_world "/gcs/sax/cell/a" = (true, None) /\
  DirExists remote_cell_world "/gcs/sax/cell/b" = (true, None) /\
  ListSubdirs remote_cell_world "/gcs/sax/cell" = ([], None) /\
  ListSubdirs remote_cell_world "/gcs/sax/cell/" = ([], None) /\
  DirExists local_cell_world "/sax/cell/a/deep" = (true, None) /\
  ListSubdirs local_cell_world "/sax/cell" = (["a"; "b"], None).
Proof. vm_compute. repeat split. Qed.

(** * Further properties of the package *)

(** ** Composing and resolving a remote path *)

Lemma Cut_at_first_slash (bucket key : string) :
  strings.Contains bucket "/" = false ->
  strings.Cut (bucket ++ "/" ++ key) "/" = (bucket, key, true).
Proof.
  induction bucket as [|c bucket IH]; intros Hb.
  - reflexivity.
  - cbn [strings.Contains] in Hb. apply orb_false_elim in Hb as [Hc Hb].
    change (String c bucket ++ "/" ++ key) with (String c (bucket ++ "/" ++ key)).
    cbn [strings.Cut]. cbn [strings.HasPrefix] in Hc |- *.
    rewrite andb_true_r in Hc |- *. rewrite Hc, (IH Hb). reflexivity.
Qed.

(** X1: with a storage client, the path made of [/gcs/], a bucket name
    without [/], a [/] and any object name resolves to that bucket and that
    object name, further [/] in the object name included. *)
Theorem gcsBucketAndObject_compose (w : World) (client : StorageClient)
  (bucket key : string) :
  gcsClient w = Some client ->
  strings.Contains bucket "/" = false ->
  gcsBucketAndObject w (gcsPathPrefix ++ bucket ++ "/" ++ key)
    = Ok ({| bucketName := bucket |}, {| objectBucket := bucket; objectName := key |}).
Proof.
  intros Hc Hb. unfold gcsBucketAndObject. rewrite Hc, TrimPrefix_app.
  rewrite (Cut_at_first_slash _ _ Hb). reflexivity.
Qed.

Lemma gcsBucketAndObject_compose_witness :
  gcsBucketAndObject cloud_world (gcsPathPrefix ++ "sax" ++ "/" ++ "cell/a/METADATA")
    = Ok ({| bucketName := "sax" |},
          {| objectBucket := "sax"; objectName := "cell/a/METADATA" |}).
Proof.
  apply (gcsBucketAndObject_compose cloud_world storageClient "sax" "cell/a/METADATA");
    reflexivity.
Defined.

(** ** What an operation reads of the world *)

(** On a remote path the reading operations see the client and the
    objects; on a local path the file tree and the working directory. *)
Lemma NewReader_lookup (w w' : World) (o : ObjectHandle) :
  storage.lookup_object w' o = storage.lookup_object w o ->
  storage.NewReader w' o = storage.NewReader w o.
Proof. unfold storage.NewReader. intros ->. reflexivity. Qed.

Lemma Attrs_lookup (w w' : World) (o : ObjectHandle) :
  storage.lookup_object w' o = storage.lookup_object w o ->
  storage.Attrs w' o = storage.Attrs w o.
Proof. unfold storage.Attrs. intros ->. reflexivity. Qed.

Lemma lookup_object_buckets (w w' : World) (o : ObjectHandle) :
  gcsBuckets w' = gcsBuckets w ->
  storage.lookup_object w' o = storage.lookup_object w o.
Proof. unfold storage.lookup_object. intros ->. reflexivity. Qed.

Lemma locate_files (w w' : World) (path : string) :
  localFiles w' = localFiles w -> workDir w' = workDir w ->
  os.locate w' path = os.locate w path.
Proof. unfold os.locate, os.start. intros -> ->. reflexivity. Qed.

Lemma Stat_files (w w' : World) (path : string) :
  localFiles w' = localFiles w -> workDir w' = workDir w ->
  os.Stat w' path = os.Stat w path.
Proof.
  intros Hf Hd. unfold os.Stat. rewrite (locate_files _ _ _ Hf Hd), Hf. reflexivity.
Qed.

Lemma os_ReadFile_files (w w' : World) (path : string) :
  localFiles w' = localFiles w -> workDir w' = workDir w ->
  os.ReadFile w' path = os.ReadFile w path.
Proof.
  intros Hf Hd. unfold os.ReadFile. rewrite (locate_files _ _ _ Hf Hd), Hf. reflexivity.
Qed.

(** A walk that succeeds still succeeds, and ends at the same node, in
    every tree that has kept the directories. *)
Lemma walk_mono (fs fs' : gmap (list string) Node) (elems : list string) :
  (forall k, fs !! k = Some Dir -> fs' !! k = Some Dir) ->
  forall cur key, os.walk fs cur elems = inr key -> os.walk fs' cur elems = inr key.
Proof.
  intros Hmono. induction elems as [|c rest IH]; intros cur key H; cbn [os.walk] in *.
  - exact H.
  - destruct (fs !! cur) as [[data|]|] eqn:Hcur; try discriminate.
    rewrite (Hmono _ Hcur). apply IH. exact H.
Qed.

Lemma locate_mono (w w' : World) (path : string) (key : list string) :
  (forall k, localFiles w !! k = Some Dir -> localFiles w' !! k = Some Dir) ->
  workDir w' = workDir w ->
  os.locate w path = inr key -> os.locate w' path = inr key.
Proof.
  intros Hmono Hd. unfold os.locate, os.start. rewrite Hd.
  destruct (String.eqb path ""); [discriminate|].
  apply walk_mono. exact Hmono.
Qed.

(** What a successful [os.WriteFile] has done. *)
Lemma os_WriteFile_ok (w w' : World) (path : string) (data : bytes) :
  os.WriteFile w path data = (w', None) ->
  exists key,
    os.locate w path = inr key /\
    localFiles w !! key <> Some Dir /\
    w' = set_localFiles w (<[key := File data]> (localFiles w)) /\
    os.locate w' path = inr key.
Proof.
  unfold os.WriteFile.
  destruct (os.locate w path) as [errno|key] eqn:Hloc; [discriminate|].
  assert (localFiles w !! key <> Some Dir ->
          os.locate (set_localFiles w (<[key := File data]> (localFiles w))) path = inr key)
    as Hkeep.
  { intros Hnd. apply (locate_mono w); [|reflexivity|exact Hloc].
    intros k Hk. simpl. rewrite lookup_insert_ne; [exact Hk|]. congruence. }
  destruct (localFiles w !! key) as [[old|]|] eqn:Hkey; try discriminate;
    intros H; injection H as <-; exists key; (split; [reflexivity|]);
    (split; [congruence|]); (split; [reflexivity|]); apply Hkeep; congruence.
Qed.

(** What a successful remote [WriteFile] has done. *)
Lemma WriteFile_remote_ok (w w' : World) (path : string) (data : bytes) :
  strings.HasPrefix path gcsPathPrefix = true ->
  WriteFile w path data = (w', None) ->
  exists bucket object,
    gcsBucketAndObject w path = Ok (bucket, object) /\
    storage.validate object = None /\
    storage.lookup_object w' object = Some data /\
    (forall o, o <> object -> storage.lookup_object w' o = storage.lookup_object w o) /\
    gcsClient w' = gcsClient w /\ localFiles w' = localFiles w /\ workDir w' = workDir w.
Proof.
  intros Hp. unfold WriteFile. rewrite Hp.
  destruct (gcsBucketAndObject w path) as [[bucket object]|err]; [|discriminate].
  unfold storage.Write, storage.NewWriter. simpl.
  destruct (storage.validate object) as [err|] eqn:Hv; [discriminate|].
  intros H. apply storage_Close_ok in H. simpl in H.
  exists bucket, object. split; [reflexivity|]. tauto.
Qed.

(** ** Writing and reading back *)

(** X2: after a successful [WriteFile], [ReadFile] on the same path
    returns the bytes written and [FileExists] returns true, on both
    backends. *)
Theorem WriteFile_ReadFile (w w' : World) (path : string) (data : bytes) :
  WriteFile w path data = (w', None) ->
  ReadFile w' path = Ok data /\ FileExists w' path = (true, None).
Proof.
  intros H. destruct (strings.HasPrefix path gcsPathPrefix) eqn:Hp.
  - destruct (WriteFile_remote_ok _ _ _ _ Hp H)
      as (bucket & object & Hres & Hv & Hnew & _ & Hc & _).
    unfold ReadFile, FileExists, storage.NewReader, storage.Attrs.
    rewrite Hp, (gcsBucketAndObject_client _ _ _ Hc), Hres, Hv, Hnew. split; reflexivity.
  - unfold WriteFile in H. rewrite Hp in H.
    destruct (os_WriteFile_ok _ _ _ _ H) as (key & _ & _ & -> & Hloc).
    unfold ReadFile, FileExists, os.ReadFile, os.Stat. rewrite Hp, Hloc. simpl.
    rewrite lookup_insert_eq. split; reflexivity.
Qed.

Lemma WriteFile_ReadFile_witness :
  (ReadFile (WriteFile cloud_world "/gcs/sax/cell/location.proto" [Byte.x78]).1
     "/gcs/sax/cell/location.proto" = Ok [Byte.x78] /\
   FileExists (WriteFile cloud_world "/gcs/sax/cell/location.proto" [Byte.x78]).1
     "/gcs/sax/cell/location.proto" = (true, None)) /\
  (ReadFile (WriteFile disk_world "/sax/cell/state" [Byte.x78]).1 "/sax/cell/state"
     = Ok [Byte.x78] /\
   FileExists (WriteFile disk_world "/sax/cell/state" [Byte.x78]).1 "/sax/cell/state"
     = (true, None)).
Proof.
  split.
  - apply (WriteFile_ReadFile cloud_world). vm_compute. reflexivity.
  - apply (WriteFile_ReadFile disk_world). vm_compute. reflexivity.
Defined.

(** ** Existence checks and reads agree *)

(** X3: when [FileExists] answers true, [ReadFile] on the same path
    returns a content; when it answers false without an error, [ReadFile]
    fails with a not-found error: one that wraps [ErrObjectNotExist] on
    the remote backend, one that [os.IsNotExist] accepts on the local
    one. *)
Theorem FileExists_ReadFile (w : World) (path : string) :
  (FileExists w path = (true, None) -> exists data, ReadFile w path = Ok data) /\
  (FileExists w path = (false, None) ->
   exists err, ReadFile w path = Err err /\
     if strings.HasPrefix path gcsPathPrefix
     then errors_Is err ErrObjectNotExist = true
     else os_IsNotExist err = true).
Proof.
  unfold FileExists, ReadFile.
  destruct (strings.HasPrefix path gcsPathPrefix).
  - destruct (gcsBucketAndObject w path) as [[bucket object]|err];
      [|split; discriminate].
    unfold storage.Attrs, storage.NewReader.
    destruct (storage.validate object) as [err|].
    { split; case_bool_decide; try discriminate.
      subst err. intros _. eexists. split; reflexivity. }
    destruct (storage.lookup_object w object) as [data|]; split; try discriminate.
    + intros _. exists data. reflexivity.
    + intros _. eexists. split; reflexivity.
  - unfold os.Stat, os.ReadFile.
    destruct (os.locate w path) as [errno|key].
    { destruct errno; split; try discriminate.
      intros _. eexists. split; reflexivity. }
    destruct (localFiles w !! key) as [[data|]|]; split; try discriminate.
    + intros _. exists data. reflexivity.
    + intros _. eexists. split; reflexivity.
Qed.

Lemma FileExists_ReadFile_witness :
  (exists data, ReadFile disk_world "/sax/cell/location.proto" = Ok data) /\
  (exists err, ReadFile disk_world "/sax/cell/other" = Err err /\ os_IsNotExist err = true) /\
  (exists err, ReadFile cloud_world "/gcs/sax/cell/other" = Err err /\
               errors_Is err ErrObjectNotExist = true).
Proof.
  split; [|split].
  - apply (FileExists_ReadFile disk_world "/sax/cell/location.proto"). vm_compute. reflexivity.
  - apply (FileExists_ReadFile disk_world "/sax/cell/other"). vm_compute. reflexivity.
  - apply (FileExists_ReadFile cloud_world "/gcs/sax/cell/other"). vm_compute. reflexivity.
Defined.

(** ** Nothing is lost by writing a file or making a directory *)

Lemma grows_refl (w : World) : grows w w.
Proof. unfold grows. repeat split; eauto. Qed.

Lemma grows_trans (w1 w2 w3 : World) : grows w1 w2 -> grows w2 w3 -> grows w1 w3.
Proof.
  intros (Hc & Hd & Ho & Hdir & Hf) (Hc' & Hd' & Ho' & Hdir' & Hf').
  unfold grows. split; [congruence|]. split; [congruence|].
  split; [auto|]. split; [auto|].
  intros k data Hk. destruct (Hf _ _ Hk) as [data' Hk']. eauto.
Qed.

Lemma grows_FileExists (w w' : World) (path : string) :
  grows w w' ->
  FileExists w path = (true, None) -> FileExists w' path = (true, None).
Proof.
  intros (Hc & Hd & Ho & Hdir & Hf). unfold FileExists.
  destruct (strings.HasPrefix path gcsPathPrefix).
  - rewrite (gcsBucketAndObject_client _ _ _ Hc).
    destruct (gcsBucketAndObject w path) as [[bucket object]|err]; [|discriminate].
    unfold storage.Attrs. destruct (storage.validate object) as [err|].
    { case_bool_decide; discriminate. }
    destruct (storage.lookup_object w object) as [data|] eqn:Hl; [|discriminate].
    destruct (Ho object) as [data' ->]; [rewrite Hl; eauto|]. reflexivity.
  - unfold os.Stat.
    destruct (os.locate w path) as [errno|key] eqn:Hloc.
    { destruct errno; discriminate. }
    rewrite (locate_mono w w' _ _ Hdir Hd Hloc).
    destruct (localFiles w !! key) as [[data|]|] eqn:Hk; try discriminate.
    destruct (Hf _ _ Hk) as [data' ->]. reflexivity.
Qed.

Lemma grows_DirExists (w w' : World) (path : string) :
  grows w w' ->
  DirExists w path = (true, None) -> DirExists w' path = (true, None).
Proof.
  intros (Hc & Hd & Ho & Hdir & Hf). unfold DirExists.
  destruct (strings.HasPrefix path gcsPathPrefix).
  - rewrite (gcsBucketAndObject_client _ _ _ Hc).
    destruct (gcsBucketAndObject w _) as [[bucket object]|err]; [|discriminate].
    unfold storage.Attrs. destruct (storage.validate object) as [err|].
    { case_bool_decide; discriminate. }
    destruct (storage.lookup_object w object) as [data|] eqn:Hl; [|discriminate].
    destruct (Ho object) as [data' ->]; [rewrite Hl; eauto|]. reflexivity.
  - unfold os.Stat.
    destruct (os.locate w path) as [errno|key] eqn:Hloc.
    { destruct errno; discriminate. }
    rewrite (locate_mono w w' _ _ Hdir Hd Hloc).
    destruct (localFiles w !! key) as [[data|]|] eqn:Hk; try discriminate.
    rewrite (Hdir _ Hk). reflexivity.
Qed.

(** A successful [Close] of a writer only adds to the world. *)
Lemma storage_Close_grows (w w' : World) (wr : storage.Writer) :
  storage.Close w wr = (w', None) -> grows w w'.
Proof.
  intros H. destruct (storage_Close_ok _ _ _ H) as (_ & Hnew & Hkeep & Hc & Hf & Hd).
  unfold grows. rewrite Hf. split; [exact Hc|]. split; [exact Hd|].
  split; [|split; eauto].
  intros o Ho. destruct (decide (o = storage.writerObject wr)) as [->|Hne].
  - rewrite Hnew. eauto.
  - rewrite (Hkeep _ Hne). exact Ho.
Qed.

(** [mkdir_walk] keeps every node of the tree. *)
Lemma mkdir_walk_keeps (elems : list string) :
  forall (fs fs' : gmap (list string) Node) (cur : list string),
    os.mkdir_walk fs cur elems = inr fs' ->
    forall k n, fs !! k = Some n -> fs' !! k = Some n.
Proof.
  induction elems as [|c rest IH]; intros fs fs' cur H k n Hk; cbn [os.mkdir_walk] in H.
  - destruct (fs !! cur) as [[data|]|]; try discriminate.
    injection H as <-. exact Hk.
  - destruct (fs !! cur) as [[data|]|]; try discriminate.
    destruct (fs !! os.step cur c) as [n'|] eqn:Hnext.
    + apply (IH _ _ _ H). exact Hk.
    + destruct (os.is_name c); [|discriminate].
      apply (IH _ _ _ H). rewrite lookup_insert_ne; [exact Hk|].
      intros E. rewrite E in Hnext. congruence.
Qed.

Lemma MkdirAll_grows (w w' : World) (path : string) :
  os.MkdirAll w path = (w', None) -> grows w w'.
Proof.
  unfold os.MkdirAll. destruct (String.eqb path ""); [discriminate|].
  destruct (os.mkdir_walk _ _ _) as [errno|fs] eqn:Hmk; [discriminate|].
  intros H. injection H as <-.
  pose proof (mkdir_walk_keeps _ _ _ _ Hmk) as Hkeep.
  unfold grows. simpl. repeat split; eauto.
Qed.

Lemma WriteFile_grows (w w' : World) (path : string) (data : bytes) :
  WriteFile w path data = (w', None) -> grows w w'.
Proof.
  intros H. destruct (strings.HasPrefix path gcsPathPrefix) eqn:Hp.
  - unfold WriteFile in H. rewrite Hp in H.
    destruct (gcsBucketAndObject w path) as [[bucket object]|err]; [|discriminate].
    destruct (storage.Write _ data) as [wr|err]; [|discriminate].
    apply (storage_Close_grows _ _ _ H).
  - unfold WriteFile in H. rewrite Hp in H.
    destruct (os_WriteFile_ok _ _ _ _ H) as (key & _ & Hnd & -> & _).
    unfold grows. simpl. repeat split; eauto.
    + intros k Hk. rewrite lookup_insert_ne; [exact Hk | congruence].
    + intros k old Hk. destruct (decide (key = k)) as [->|Hne].
      * rewrite lookup_insert_eq. eauto.
      * rewrite lookup_insert_ne by exact Hne. eauto.
Qed.

Lemma CreateDir_grows (w w' : World) (path : string) :
  CreateDir w path "" = (w', None) -> grows w w'.
Proof.
  intros H. unfold CreateDir in H.
  change (String.eqb "" "") with true in H. cbn [negb] in H.
  destruct (strings.HasPrefix path gcsPathPrefix).
  - destruct (gcsBucketAndObject w _) as [[bucket object]|err]; [|discriminate].
    apply (storage_Close_grows _ _ _ H).
  - apply (MkdirAll_grows _ _ _ H).
Qed.

(** X4: a successful [WriteFile] and a successful [CreateDir] make no
    file and no directory disappear, on either backend: whatever path
    [FileExists] or [DirExists] answered true for, it still does. *)
Theorem write_and_mkdir_keep (w w' : World) (path : string) (data : bytes) :
  WriteFile w path data = (w', None) \/ CreateDir w path "" = (w', None) ->
  forall p,
    (FileExists w p = (true, None) -> FileExists w' p = (true, None)) /\
    (DirExists w p = (true, None) -> DirExists w' p = (true, None)).
Proof.
  intros H p. assert (grows w w') as Hg.
  { destruct H as [H|H]; [apply (WriteFile_grows _ _ _ _ H) | apply (CreateDir_grows _ _ _ H)]. }
  split; [apply grows_FileExists | apply grows_DirExists]; exact Hg.
Qed.

Lemma write_and_mkdir_keep_witness :
  (FileExists (WriteFile disk_world "/sax/cell/state" []).1 "/sax/cell/location.proto"
     = (true, None)) /\
  (DirExists (CreateDir remote_cell_world "/gcs/sax/other" "").1 "/gcs/sax/cell/a"
     = (true, None)).
Proof.
  split.
  - apply (write_and_mkdir_keep disk_world _ "/sax/cell/state" []);
      [left; vm_compute; reflexivity | vm_compute; reflexivity].
  - apply (write_and_mkdir_keep remote_cell_world _ "/gcs/sax/other" []);
      [right; vm_compute; reflexivity | vm_compute; reflexivity].
Defined.

(** ** The two backends do not touch each other *)

Lemma storage_Close_frame (w : World) (wr : storage.Writer) :
  gcsClient (storage.Close w wr).1 = gcsClient w /\
  workDir (storage.Close w wr).1 = workDir w /\
  localFiles (storage.Close w wr).1 = localFiles w.
Proof.
  unfold storage.Close. destruct (storage.validate _); [auto|].
  destruct (gcsBuckets w !! _); auto.
Qed.

Lemma os_WriteFile_frame (w : World) (path : string) (data : bytes) :
  gcsClient (os.WriteFile w path data).1 = gcsClient w /\
  workDir (os.WriteFile w path data).1 = workDir w /\
  gcsBuckets (os.WriteFile w path data).1 = gcsBuckets w.
Proof.
  unfold os.WriteFile. destruct (os.locate w path) as [errno|key]; [auto|].
  destruct (localFiles w !! key) as [[old|]|]; auto.
Qed.

Lemma os_Rename_frame (w : World) (oldpath newpath : string) :
  gcsClient (os.Rename w oldpath newpath).1 = gcsClient w /\
  workDir (os.Rename w oldpath newpath).1 = workDir w /\
  gcsBuckets (os.Rename w oldpath newpath).1 = gcsBuckets w.
Proof.
  unfold os.Rename.
  destruct (os.locate w oldpath) as [errno|old]; [auto|].
  destruct (os.locate w newpath) as [errno|new]; [auto|]. cbv zeta.
  destruct (localFiles w !! old) as [[data|]|]; [| |auto].
  - destruct (localFiles w !! new) as [[data'|]|]; auto.
  - destruct (localFiles w !! new) as [[data'|]|]; [auto| |];
      (case_bool_decide; [auto|]); (destruct (os.is_below old new); [auto|]);
      case_bool_decide; auto.
Qed.

Lemma os_MkdirAll_frame (w : World) (path : string) :
  gcsClient (os.MkdirAll w path).1 = gcsClient w /\
  workDir (os.MkdirAll w path).1 = workDir w /\
  gcsBuckets (os.MkdirAll w path).1 = gcsBuckets w.
Proof.
  unfold os.MkdirAll. destruct (String.eqb path ""); [auto|].
  destruct (os.mkdir_walk _ _ _); auto.
Qed.

Lemma WriteFile_untouched (w : World) (path : string) (data : bytes) :
  other_backend_untouched path w (WriteFile w path data).1.
Proof.
  unfold other_backend_untouched, WriteFile.
  destruct (strings.HasPrefix path gcsPathPrefix).
  - destruct (gcsBucketAndObject w path) as [[bucket object]|err]; [|auto].
    destruct (storage.Write _ data) as [wr|err]; [|auto].
    apply storage_Close_frame.
  - apply os_WriteFile_frame.
Qed.

(** X5: the operations that write ([WriteFile], [WriteFileAtomically],
    [CreateDir]), whether they succeed or fail, never change the local
    file tree when the path is remote nor the buckets when the path is
    local, and never the storage client or the working directory. *)
Theorem writes_leave_other_backend
  (now : Z) (rnd : N) (w : World) (path acl : string) (data : bytes) :
  other_backend_untouched path w (WriteFile w path data).1 /\
  other_backend_untouched path w (WriteFileAtomically now rnd w path data).1 /\
  other_backend_untouched path w (CreateDir w path acl).1.
Proof.
  split; [apply WriteFile_untouched|]. split.
  - pose proof (WriteFile_untouched w path data) as Hw.
    unfold other_backend_untouched, WriteFileAtomically in *.
    destruct (strings.HasPrefix path gcsPathPrefix); [exact Hw|].
    pose proof (os_WriteFile_frame w
                  (path ++ "." ++ fmt_d now ++ "." ++ fmt_016x rnd) data) as Ht.
    destruct (os.WriteFile w _ data) as [w1 [err|]]; [exact Ht|].
    pose proof (os_Rename_frame w1
                  (path ++ "." ++ fmt_d now ++ "." ++ fmt_016x rnd) path) as Hr.
    simpl in Ht. destruct Ht as (Hc & Hd & Hb). destruct Hr as (Hc' & Hd' & Hb').
    repeat split; congruence.
  - unfold other_backend_untouched, CreateDir.
    destruct (negb (String.eqb acl "")); [destruct (strings.HasPrefix _ _); auto|].
    destruct (strings.HasPrefix path gcsPathPrefix).
    + destruct (gcsBucketAndObject w _) as [[bucket object]|err]; [|auto].
      apply storage_Close_frame.
    + apply os_MkdirAll_frame.
Qed.

(** ** Making a directory twice *)

Lemma storage_Close_eq (w w' : World) (wr : storage.Writer) :
  storage.Close w wr = (w', None) ->
  exists objs,
    gcsBuckets w !! objectBucket (storage.writerObject wr) = Some objs /\
    w' = set_gcsBuckets w
           (<[objectBucket (storage.writerObject wr) :=
                <[objectName (storage.writerObject wr) := storage.writerData wr]> objs]>
              (gcsBuckets w)).
Proof.
  unfold storage.Close.
  destruct (storage.validate _); [discriminate|].
  destruct (gcsBuckets w !! _) as [objs|]; [|discriminate].
  intros H. injection H as <-. exists objs. split; reflexivity.
Qed.

Lemma storage_Close_again (w w' : World) (wr : storage.Writer) :
  storage.Close w wr = (w', None) -> storage.Close w' wr = (w', None).
Proof.
  intros H. destruct (storage_Close_ok _ _ _ H) as (Hv & _).
  destruct (storage_Close_eq _ _ _ H) as (objs & Hb & ->).
  unfold storage.Close. rewrite Hv. simpl. rewrite lookup_insert_eq.
  unfold set_gcsBuckets. simpl. rewrite !insert_insert_eq. reflexivity.
Qed.

(** [mkdir_walk] on a path that is a directory already changes nothing. *)
Lemma mkdir_walk_existing (elems : list string) :
  forall (fs : gmap (list string) Node) (cur key : list string),
    os.walk fs cur elems = inr key -> fs !! key = Some Dir ->
    os.mkdir_walk fs cur elems = inr fs.
Proof.
  induction elems as [|c rest IH]; intros fs cur key H Hkey;
    cbn [os.walk os.mkdir_walk] in *.
  - injection H as ->. rewrite Hkey. reflexivity.
  - destruct (fs !! cur) as [[data|]|]; try discriminate.
    assert (is_Some (fs !! os.step cur c)) as [n Hn].
    { destruct rest as [|c' rest']; cbn [os.walk] in H.
      - injection H as ->. eauto.
      - destruct (fs !! os.step cur c) as [n|]; [eauto | discriminate]. }
    rewrite Hn. apply (IH _ _ _ H Hkey).
Qed.

(** X6: [CreateDir] is idempotent: once it has succeeded, calling it again
    on the same path succeeds and leaves the world exactly as it is. *)
Theorem CreateDir_idempotent (w w' : World) (path : string) :
  CreateDir w path "" = (w', None) -> CreateDir w' path "" = (w', None).
Proof.
  intros H. pose proof H as H0. unfold CreateDir in H |- *.
  change (String.eqb "" "") with true in H |- *. cbn [negb] in H |- *.
  destruct (strings.HasPrefix path gcsPathPrefix).
  - destruct (gcsBucketAndObject w _) as [[bucket object]|err] eqn:Hres; [|discriminate].
    destruct (storage_Close_ok _ _ _ H) as (_ & _ & _ & Hc & _).
    rewrite (gcsBucketAndObject_client _ _ _ Hc), Hres.
    apply (storage_Close_again w). exact H.
  - unfold os.MkdirAll in H |- *.
    destruct (String.eqb path ""); [discriminate|].
    destruct (os.mkdir_walk _ _ _) as [errno|fs] eqn:Hmk; [discriminate|].
    injection H as <-.
    destruct (mkdir_walk_walk _ _ _ _ Hmk) as (_ & key & Hwalk & Hkey).
    change (os.start (set_localFiles w fs) path) with (os.start w path). simpl.
    rewrite (mkdir_walk_existing _ _ _ _ Hwalk Hkey). reflexivity.
Qed.

Lemma CreateDir_idempotent_witness :
  CreateDir (CreateDir cloud_world "/gcs/sax/cell" "").1 "/gcs/sax/cell" ""
    = ((CreateDir cloud_world "/gcs/sax/cell" "").1, None) /\
  CreateDir (CreateDir cloud_world "/sax/cell" "").1 "/sax/cell" ""
    = ((CreateDir cloud_world "/sax/cell" "").1, None).
Proof.
  split.
  - apply (CreateDir_idempotent cloud_world). vm_compute. reflexivity.
  - apply (CreateDir_idempotent cloud_world). vm_compute. reflexivity.
Defined.

(** ** Paths element by element *)

Lemma Split_nonempty (s : string) : strings.Split s "/" <> [].
Proof.
  destruct s as [|c s]; cbn [strings.Split]; [discriminate|].
  destruct (Ascii.eqb c "/"); [discriminate|].
  destruct (strings.Split s "/"); discriminate.
Qed.

Lemma Split_cons (c : ascii) (s : string) :
  Ascii.eqb c "/" = false ->
  exists x xs, strings.Split s "/" = x :: xs /\
               strings.Split (String c s) "/" = String c x :: xs.
Proof.
  intros Hc. cbn [strings.Split]. rewrite Hc.
  destruct (strings.Split s "/") as [|x xs] eqn:Hs; [destruct (Split_nonempty _ Hs)|].
  exists x, xs. split; reflexivity.
Qed.

(** The elements of [a/b] are those of [a] followed by those of [b]. *)
Lemma Split_app_slash (a b : string) :
  strings.Split (a ++ "/" ++ b) "/" = (strings.Split a "/" ++ strings.Split b "/")%list.
Proof.
  induction a as [|c a IH]; [reflexivity|].
  change (String c a ++ "/" ++ b) with (String c (a ++ "/" ++ b)).
  destruct (Ascii.eqb c "/") eqn:Hc.
  - cbn [strings.Split]. rewrite Hc, IH. reflexivity.
  - destruct (Split_cons c a Hc) as (x & xs & Hs & ->).
    destruct (Split_cons c (a ++ "/" ++ b) Hc) as (y & ys & Hs' & ->).
    rewrite IH, Hs in Hs'. injection Hs' as <- <-. reflexivity.
Qed.

Lemma Contains_slash_cons (c : ascii) (s : string) :
  strings.Contains (String c s) "/" = false ->
  Ascii.eqb c "/" = false /\ strings.Contains s "/" = false.
Proof.
  cbn [strings.Contains strings.HasPrefix]. rewrite andb_true_r.
  intros H. apply orb_false_elim in H as [Hc Hs]. split; [|exact Hs].
  rewrite Ascii.eqb_sym. exact Hc.
Qed.

Lemma Split_slash_free (s : string) :
  strings.Contains s "/" = false -> strings.Split s "/" = [s].
Proof.
  induction s as [|c s IH]; intros H; [reflexivity|].
  apply Contains_slash_cons in H as [Hc Hs].
  cbn [strings.Split]. rewrite Hc, (IH Hs). reflexivity.
Qed.

(** Text without [/] added behind a path goes to its last element. *)
Lemma Split_suffix (s suffix : string) :
  strings.Contains suffix "/" = false ->
  exists init last,
    strings.Split s "/" = (init ++ [last])%list /\
    strings.Split (s ++ suffix) "/" = (init ++ [(last ++ suffix)%string])%list.
Proof.
  intros Hsuf. induction s as [|c s (init & last & Hs & Hs')].
  - exists [], "". split; [reflexivity|]. apply (Split_slash_free _ Hsuf).
  - change (String c s ++ suffix) with (String c (s ++ suffix)).
    destruct (Ascii.eqb c "/") eqn:Hc.
    + exists ("" :: init), last. cbn [strings.Split]. rewrite Hc, Hs, Hs'.
      split; reflexivity.
    + destruct (Split_cons c s Hc) as (x & xs & Hx & ->).
      destruct (Split_cons c (s ++ suffix) Hc) as (y & ys & Hy & ->).
      rewrite Hs in Hx. rewrite Hs' in Hy.
      destruct init as [|i init]; simpl in Hx, Hy.
      * injection Hx as <- <-. injection Hy as <- <-.
        exists [], (String c last). split; reflexivity.
      * injection Hx as <- <-. injection Hy as <- <-.
        exists (String c i :: init), last. split; reflexivity.
Qed.

Lemma walk_app (fs : gmap (list string) Node) (l1 l2 : list string) :
  forall cur,
    os.walk fs cur (l1 ++ l2)
      = match os.walk fs cur l1 with
        | inl errno => inl errno
        | inr mid => os.walk fs mid l2
        end.
Proof.
  induction l1 as [|c l1 IH]; intros cur; [reflexivity|].
  cbn [os.walk app]. destruct (fs !! cur) as [[data|]|]; auto.
Qed.

(** A walk that goes on from a node has found a directory there. *)
Lemma walk_from_dir (fs : gmap (list string) Node) (cur key : list string)
  (elems : list string) :
  elems <> [] -> os.walk fs cur elems = inr key -> fs !! cur = Some Dir.
Proof.
  destruct elems as [|c rest]; [contradiction|]. intros _. cbn [os.walk].
  destruct (fs !! cur) as [[data|]|]; [discriminate | reflexivity | discriminate].
Qed.

Lemma HasPrefix_app_l (a b p : string) :
  strings.HasPrefix a p = true -> strings.HasPrefix (a ++ b) p = true.
Proof.
  intros H. destruct (HasPrefix_inv _ _ H) as [r ->].
  rewrite string_app_assoc. apply HasPrefix_app.
Qed.

Lemma start_app (w : World) (a b : string) :
  a <> "" -> os.start w (a ++ b) = os.start w a.
Proof. destruct a as [|c a]; [contradiction|]. reflexivity. Qed.

Lemma eqb_app_empty (a b : string) : a <> "" -> String.eqb (a ++ b) "" = false.
Proof. destruct a as [|c a]; [contradiction|]. reflexivity. Qed.

Lemma step_name (cur : list string) (name : string) :
  os.is_name name = true -> os.step cur name = (cur ++ [name])%list.
Proof.
  unfold os.is_name, os.step. intros H. apply negb_true_iff in H.
  apply orb_false_elim in H as [H Hdd]. rewrite H, Hdd. reflexivity.
Qed.

(** ** Parents and children of a local directory *)

(** After [MkdirAll] on [a/b] the part [a] is a directory, and [b] leads
    from it to the directory made. *)
Lemma MkdirAll_parent (w w' : World) (a b : string) :
  a <> "" ->
  os.MkdirAll w (a ++ "/" ++ b) = (w', None) ->
  exists dir key,
    os.locate w' a = inr dir /\ localFiles w' !! dir = Some Dir /\
    os.walk (localFiles w') dir (strings.Split b "/") = inr key /\
    localFiles w' !! key = Some Dir.
Proof.
  intros Ha. unfold os.MkdirAll. rewrite (eqb_app_empty _ _ Ha), (start_app _ _ _ Ha).
  destruct (os.mkdir_walk _ _ _) as [errno|fs] eqn:Hmk; [discriminate|].
  intros H. injection H as <-.
  destruct (mkdir_walk_walk _ _ _ _ Hmk) as (_ & key & Hwalk & Hkey).
  rewrite Split_app_slash, walk_app in Hwalk.
  destruct (os.walk fs (os.start w a) (strings.Split a "/")) as [errno|dir] eqn:Hdir;
    [discriminate|].
  exists dir, key. unfold os.locate. simpl.
  destruct (String.eqb_spec a "") as [E|_]; [contradiction|].
  change (os.start (set_localFiles w fs) a) with (os.start w a).
  split; [exact Hdir|]. split; [|split; [exact Hwalk | exact Hkey]].
  apply (walk_from_dir _ _ _ _ (Split_nonempty b) Hwalk).
Qed.

(** X7: on the local backend [CreateDir] makes the parents too: after a
    successful [CreateDir] of [a/b], [DirExists] is true for [a],
    whatever [b] is. *)
Theorem CreateDir_local_parents (w w' : World) (a b : string) :
  strings.HasPrefix (a ++ "/" ++ b) gcsPathPrefix = false ->
  a <> "" ->
  CreateDir w (a ++ "/" ++ b) "" = (w', None) ->
  DirExists w' a = (true, None).
Proof.
  intros Hp Ha H. unfold CreateDir in H.
  change (String.eqb "" "") with true in H. cbn [negb] in H. rewrite Hp in H.
  destruct (MkdirAll_parent _ _ _ _ Ha H) as (dir & key & Hloc & Hdir & _).
  unfold DirExists, os.Stat.
  destruct (strings.HasPrefix a gcsPathPrefix) eqn:Hpa.
  { rewrite (HasPrefix_app_l _ _ _ Hpa) in Hp. discriminate. }
  rewrite Hloc, Hdir. reflexivity.
Qed.

Lemma CreateDir_local_parents_witness :
  DirExists (CreateDir cloud_world ("/sax/cell" ++ "/" ++ "a/deep") "").1 "/sax/cell"
    = (true, None).
Proof.
  apply (CreateDir_local_parents cloud_world _ "/sax/cell" "a/deep");
    [reflexivity | discriminate | vm_compute; reflexivity].
Defined.

(** X8: on the local backend a directory made by [CreateDir] is listed by
    [ListSubdirs] of its parent: after a successful [CreateDir] of
    [path/name], where [name] is a plain name, [ListSubdirs] of [path]
    succeeds and returns [name] among the names. *)
Theorem CreateDir_local_listed (w w' : World) (path name : string) :
  strings.HasPrefix (path ++ "/" ++ name) gcsPathPrefix = false ->
  path <> "" ->
  os.is_name name = true ->
  strings.Contains name "/" = false ->
  CreateDir w (path ++ "/" ++ name) "" = (w', None) ->
  exists names : list string, ListSubdirs w' path = (names, None) /\ name ∈ names.
Proof.
  intros Hp Ha Hname Hslash H. unfold CreateDir in H.
  change (String.eqb "" "") with true in H. cbn [negb] in H. rewrite Hp in H.
  destruct (MkdirAll_parent _ _ _ _ Ha H) as (dir & key & Hloc & Hdir & Hwalk & Hkey).
  rewrite (Split_slash_free _ Hslash) in Hwalk. cbn [os.walk] in Hwalk.
  rewrite Hdir, (step_name _ _ Hname) in Hwalk. injection Hwalk as <-.
  destruct (strings.HasPrefix path gcsPathPrefix) eqn:Hpa.
  { rewrite (HasPrefix_app_l _ _ _ Hpa) in Hp. discriminate. }
  destruct (ListSubdirs_local_names w' path dir Hpa Hloc Hdir) as (names & Hls & Hin).
  exists names. split; [exact Hls|]. apply Hin. rewrite Hkey. eauto.
Qed.

Lemma CreateDir_local_listed_witness :
  exists names : list string,
    ListSubdirs (CreateDir disk_world ("/sax/cell" ++ "/" ++ "a") "").1 "/sax/cell"
      = (names, None) /\ "a" ∈ names.
Proof.
  apply (CreateDir_local_listed disk_world _ "/sax/cell" "a");
    [reflexivity | discriminate | reflexivity | reflexivity | vm_compute; reflexivity].
Defined.

(** ** The temporary file of an atomic write *)

Lemma Contains_slash_app (a b : string) :
  strings.Contains a "/" = false -> strings.Contains b "/" = false ->
  strings.Contains (a ++ b) "/" = false.
Proof.
  intros Ha Hb. induction a as [|c a IH]; [exact Hb|].
  apply Contains_slash_cons in Ha as [Hc Ha].
  change (String c a ++ b) with (String c (a ++ b)).
  cbn [strings.Contains strings.HasPrefix]. rewrite andb_true_r.
  rewrite Ascii.eqb_sym, Hc, (IH Ha). reflexivity.
Qed.

Lemma decimal_slash_free (d : Decimal.uint) :
  strings.Contains (DecimalString.NilEmpty.string_of_uint d) "/" = false.
Proof. induction d; cbn; try rewrite IHd; reflexivity. Qed.

Lemma hexadecimal_slash_free (d : Hexadecimal.uint) :
  strings.Contains (HexadecimalString.NilEmpty.string_of_uint d) "/" = false.
Proof. induction d; cbn; try rewrite IHd; reflexivity. Qed.

Lemma fmt_d_slash_free (n : Z) : strings.Contains (fmt_d n) "/" = false.
Proof.
  unfold fmt_d, DecimalString.NilZero.string_of_int, DecimalString.NilZero.string_of_uint.
  destruct (Z.to_int n) as [d|d].
  - destruct d; try reflexivity; apply decimal_slash_free.
  - apply (Contains_slash_app "-"); [reflexivity|].
    destruct d; try reflexivity; apply decimal_slash_free.
Qed.

Lemma zeros_slash_free (n : nat) :
  strings.Contains (string_of_list_ascii (repeat "0"%char n)) "/" = false.
Proof. induction n as [|n IH]; [reflexivity|]. cbn. rewrite IH. reflexivity. Qed.

Lemma fmt_016x_slash_free (n : N) : strings.Contains (fmt_016x n) "/" = false.
Proof.
  unfold fmt_016x, HexadecimalString.NilZero.string_of_uint.
  apply Contains_slash_app; [apply zeros_slash_free|].
  destruct (N.to_hex_uint _); try reflexivity; apply hexadecimal_slash_free.
Qed.

Lemma temp_suffix_slash_free (now : Z) (rnd : N) :
  strings.Contains (temp_suffix now rnd) "/" = false.
Proof.
  unfold temp_suffix.
  apply (Contains_slash_app "."); [reflexivity|].
  apply Contains_slash_app; [apply fmt_d_slash_free|].
  apply (Contains_slash_app "."); [reflexivity|]. apply fmt_016x_slash_free.
Qed.

Lemma string_length_app (a b : string) :
  String.length (a ++ b) = String.length a + String.length b.
Proof.
  induction a as [|c a IH]; [reflexivity|].
  change (String c a ++ b) with (String c (a ++ b)). simpl. rewrite IH. reflexivity.
Qed.

Lemma zeros_length (n : nat) :
  String.length (string_of_list_ascii (repeat "0"%char n)) = n.
Proof. induction n as [|n IH]; [reflexivity|]. simpl. rewrite IH. reflexivity. Qed.

(** The verb [%016x] gives at least sixteen characters. *)
Lemma fmt_016x_length (n : N) : 16 <= String.length (fmt_016x n).
Proof. unfold fmt_016x. rewrite string_length_app, zeros_length. lia. Qed.

Lemma temp_suffix_length (now : Z) (rnd : N) : 3 <= String.length (temp_suffix now rnd).
Proof.
  unfold temp_suffix. rewrite !string_length_app.
  pose proof (fmt_016x_length rnd). simpl. lia.
Qed.

Lemma long_is_name (x : string) : 3 <= String.length x -> os.is_name x = true.
Proof.
  intros Hlen. unfold os.is_name.
  assert (String.eqb x "" = false) as ->.
  { apply String.eqb_neq. intros ->. simpl in Hlen. lia. }
  assert (String.eqb x "." = false) as ->.
  { apply String.eqb_neq. intros ->. simpl in Hlen. lia. }
  assert (String.eqb x ".." = false) as ->.
  { apply String.eqb_neq. intros ->. simpl in Hlen. lia. }
  reflexivity.
Qed.

Lemma removelast_length_le {A} (l : list A) : length (removelast l) <= length l.
Proof. rewrite removelast_firstn_len, length_take. lia. Qed.

(** The temporary file is looked for where the target is, under a name
    of its own: the walks of the two paths fail alike, and end at different
    nodes when they succeed. *)
Lemma locate_temp (w : World) (path suffix : string) :
  path <> "" ->
  strings.Contains suffix "/" = false ->
  3 <= String.length suffix ->
  match os.locate w path with
  | inl errno => os.locate w (path ++ suffix) = inl errno
  | inr kp => exists kt, os.locate w (path ++ suffix) = inr kt /\ kt <> kp
  end.
Proof.
  intros Hpath Hslash Hlen. unfold os.locate.
  rewrite (eqb_app_empty _ _ Hpath), (start_app _ _ _ Hpath).
  destruct (String.eqb_spec path "") as [E|_]; [contradiction|].
  destruct (Split_suffix path suffix Hslash) as (init & last & -> & ->).
  rewrite !walk_app.
  destruct (os.walk (localFiles w) (os.start w path) init) as [errno|cur]; [reflexivity|].
  cbn [os.walk]. destruct (localFiles w !! cur) as [[data|]|]; try reflexivity.
  eexists. split; [reflexivity|].
  assert (3 <= String.length (last ++ suffix)) as Hlong.
  { rewrite string_length_app. lia. }
  rewrite (step_name _ _ (long_is_name _ Hlong)).
  unfold os.step.
  destruct (String.eqb last "" || String.eqb last ".").
  { intros E. apply (f_equal length) in E. rewrite length_app in E. simpl in E. lia. }
  destruct (String.eqb last "..").
  { intros E. apply (f_equal length) in E. rewrite length_app in E. simpl in E.
    pose proof (removelast_length_le cur). lia. }
  intros E. apply app_inv_head in E. injection E as E.
  apply (f_equal String.length) in E. rewrite string_length_app in E. lia.
Qed.

Lemma os_WriteFile_err (w w' : World) (path : string) (data : bytes) (err : error) :
  os.WriteFile w path data = (w', Some err) -> w' = w.
Proof.
  unfold os.WriteFile. destruct (os.locate w path) as [errno|key]; [congruence|].
  destruct (localFiles w !! key) as [[old|]|]; congruence.
Qed.

Lemma os_Rename_err (w w' : World) (oldpath newpath : string) (err : error) :
  os.Rename w oldpath newpath = (w', Some err) -> w' = w.
Proof.
  unfold os.Rename.
  destruct (os.locate w oldpath) as [errno|old]; [congruence|].
  destruct (os.locate w newpath) as [errno|new]; [congruence|]. cbv zeta.
  destruct (localFiles w !! old) as [[data|]|]; [| |congruence].
  - destruct (localFiles w !! new) as [[data'|]|]; congruence.
  - destruct (localFiles w !! new) as [[data'|]|]; [congruence| |];
      (case_bool_decide; [congruence|]); (destruct (os.is_below old new); [congruence|]);
      case_bool_decide; congruence.
Qed.

(** [os.Rename] of a file onto a path that is not a directory. *)
Lemma os_Rename_file (w : World) (oldpath newpath : string) (old new : list string)
  (data : bytes) :
  os.locate w oldpath = inr old -> os.locate w newpath = inr new ->
  localFiles w !! old = Some (File data) ->
  os.Rename w oldpath newpath
    = match localFiles w !! new with
      | Some Dir => (w, Some (PathError "rename" newpath EISDIR))
      | _ => (set_localFiles w (<[new := File data]> (delete old (localFiles w))), None)
      end.
Proof.
  intros Ho Hn Hf. unfold os.Rename. rewrite Ho, Hn. cbv zeta. rewrite Hf.
  destruct (localFiles w !! new) as [[data'|]|]; reflexivity.
Qed.

Lemma string_app_cons (c : ascii) (a b : string) : String c a ++ b = String c (a ++ b).
Proof. reflexivity. Qed.

Lemma string_app_nil (b : string) : "" ++ b = b.
Proof. reflexivity. Qed.

Lemma HasPrefix_dot_suffix (path rest : string) :
  strings.HasPrefix path gcsPathPrefix = false ->
  strings.HasPrefix (path ++ String "." rest) gcsPathPrefix = false.
Proof.
  unfold gcsPathPrefix.
  destruct path as [|c1 [|c2 [|c3 [|c4 [|c5 path]]]]];
    rewrite ?string_app_cons, ?string_app_nil;
    cbn [strings.HasPrefix]; intros H; revert H;
    repeat match goal with
           | |- context [Ascii.eqb ?a ?c] => is_var c; destruct (Ascii.eqb a c)
           end; auto.
Qed.

(** The two steps of a local [WriteFileAtomically] that has written its
    temporary file: the nodes of the temporary file and of the target. *)
Lemma atomic_temp_written (now : Z) (rnd : N) (w w1 : World) (path : string)
  (data : bytes) :
  path <> "" ->
  os.WriteFile w (path ++ temp_suffix now rnd) data = (w1, None) ->
  exists kt kp,
    kt <> kp /\
    os.locate w path = inr kp /\
    os.locate w1 path = inr kp /\
    os.locate w1 (path ++ temp_suffix now rnd) = inr kt /\
    localFiles w1 = <[kt := File data]> (localFiles w) /\
    workDir w1 = workDir w.
Proof.
  intros Hpath H.
  destruct (os_WriteFile_ok _ _ _ _ H) as (kt & Hkt & Hnd & -> & Hkt1).
  pose proof (locate_temp w path (temp_suffix now rnd) Hpath
                (temp_suffix_slash_free now rnd) (temp_suffix_length now rnd)) as Ht.
  destruct (os.locate w path) as [errno|kp] eqn:Hkp; [congruence|].
  destruct Ht as (kt' & Hkt' & Hne). rewrite Hkt in Hkt'. injection Hkt' as <-.
  exists kt, kp. split; [exact Hne|]. split; [reflexivity|].
  split; [|split; [exact Hkt1 | split; reflexivity]].
  apply (locate_mono w); [|reflexivity|exact Hkp].
  intros k Hk. simpl. rewrite lookup_insert_ne; [exact Hk | congruence].
Qed.

(** X9: a successful [WriteFileAtomically] on a local path has written the
    target: [ReadFile] returns the bytes and [FileExists] is true; and it
    has left no temporary file: [FileExists] of the temporary path is
    false. *)
Theorem WriteFileAtomically_local
  (now : Z) (rnd : N) (w w' : World) (path : string) (data : bytes) :
  strings.HasPrefix path gcsPathPrefix = false ->
  WriteFileAtomically now rnd w path data = (w', None) ->
  ReadFile w' path = Ok data /\
  FileExists w' path = (true, None) /\
  FileExists w' (path ++ "." ++ fmt_d now ++ "." ++ fmt_016x rnd) = (false, None).
Proof.
  intros Hp H. unfold WriteFileAtomically in H. rewrite Hp in H.
  change (path ++ "." ++ fmt_d now ++ "." ++ fmt_016x rnd)
    with (path ++ temp_suffix now rnd) in *.
  destruct (os.WriteFile w _ data) as [w1 [err|]] eqn:Hw1; [discriminate|].
  destruct (String.eqb_spec path "") as [->|Hpath].
  { unfold os.Rename in H.
    destruct (os.locate w1 _); discriminate H. }
  destruct (atomic_temp_written _ _ _ _ _ _ Hpath Hw1)
    as (kt & kp & Hne & _ & Hkp1 & Hkt1 & Hfs1 & _).
  rewrite (os_Rename_file w1 _ _ kt kp data Hkt1 Hkp1) in H
    by (rewrite Hfs1; apply lookup_insert_eq).
  assert (localFiles w1 !! kp <> Some Dir /\
          w' = set_localFiles w1 (<[kp := File data]> (delete kt (localFiles w1))))
    as [Hnd ->].
  { destruct (localFiles w1 !! kp) as [[old|]|]; try discriminate;
      injection H as <-; split; congruence. }
  assert (forall k, localFiles w1 !! k = Some Dir ->
            <[kp := File data]> (delete kt (localFiles w1)) !! k = Some Dir) as Hkeep.
  { intros k Hk. rewrite lookup_insert_ne by congruence.
    rewrite lookup_delete_ne; [exact Hk|].
    intros <-. rewrite Hfs1, lookup_insert_eq in Hk. discriminate. }
  assert (os.locate (set_localFiles w1 (<[kp := File data]> (delete kt (localFiles w1)))) path
          = inr kp) as Hkp'.
  { apply (locate_mono w1); [exact Hkeep | reflexivity | exact Hkp1]. }
  assert (os.locate (set_localFiles w1 (<[kp := File data]> (delete kt (localFiles w1))))
            (path ++ temp_suffix now rnd) = inr kt) as Hkt'.
  { apply (locate_mono w1); [exact Hkeep | reflexivity | exact Hkt1]. }
  assert (strings.HasPrefix (path ++ temp_suffix now rnd) gcsPathPrefix = false) as Hpt.
  { apply (HasPrefix_dot_suffix path (fmt_d now ++ "." ++ fmt_016x rnd) Hp). }
  unfold ReadFile, FileExists, os.ReadFile, os.Stat.
  rewrite Hp, Hpt, Hkp', Hkt'. simpl.
  rewrite lookup_insert_eq, lookup_insert_ne, lookup_delete_eq by congruence.
  repeat split.
Qed.

Lemma WriteFileAtomically_local_witness :
  ReadFile (WriteFileAtomically 17 48879 disk_world "/sax/cell/state" [Byte.x78]).1
    "/sax/cell/state" = Ok [Byte.x78] /\
  FileExists (WriteFileAtomically 17 48879 disk_world "/sax/cell/state" [Byte.x78]).1
    "/sax/cell/state" = (true, None) /\
  FileExists (WriteFileAtomically 17 48879 disk_world "/sax/cell/state" [Byte.x78]).1
    ("/sax/cell/state" ++ "." ++ fmt_d 17 ++ "." ++ fmt_016x 48879) = (false, None).
Proof.
  apply (WriteFileAtomically_local 17 48879 disk_world);
    [reflexivity | vm_compute; reflexivity].
Defined.

(** X10: a [WriteFileAtomically] on a local path that fails has not
    touched the target: [ReadFile] and [FileExists] answer for it what
    they answered before the call. *)
Theorem WriteFileAtomically_failure
  (now : Z) (rnd : N) (w w' : World) (path : string) (data : bytes) (err : error) :
  strings.HasPrefix path gcsPathPrefix = false ->
  WriteFileAtomically now rnd w path data = (w', Some err) ->
  ReadFile w' path = ReadFile w path /\ FileExists w' path = FileExists w path.
Proof.
  intros Hp H. unfold WriteFileAtomically in H. rewrite Hp in H.
  change (path ++ "." ++ fmt_d now ++ "." ++ fmt_016x rnd)
    with (path ++ temp_suffix now rnd) in *.
  destruct (os.WriteFile w _ data) as [w1 [err1|]] eqn:Hw1.
  { injection H as <- _. rewrite (os_WriteFile_err _ _ _ _ _ Hw1). split; reflexivity. }
  rewrite (os_Rename_err _ _ _ _ _ H).
  unfold ReadFile, FileExists, os.ReadFile, os.Stat. rewrite Hp.
  destruct (String.eqb_spec path "") as [->|Hpath]; [split; reflexivity|].
  destruct (atomic_temp_written _ _ _ _ _ _ Hpath Hw1)
    as (kt & kp & Hne & Hkp & Hkp1 & _ & Hfs1 & _).
  rewrite Hkp, Hkp1, Hfs1, lookup_insert_ne by exact Hne. split; reflexivity.
Qed.

Lemma WriteFileAtomically_failure_witness :
  ReadFile (WriteFileAtomically 17 48879 disk_world "/sax/cell" [Byte.x78]).1 "/sax/cell"
    = ReadFile disk_world "/sax/cell" /\
  FileExists (WriteFileAtomically 17 48879 disk_world "/sax/cell" [Byte.x78]).1 "/sax/cell"
    = FileExists disk_world "/sax/cell".
Proof.
  apply (WriteFileAtomically_failure 17 48879 disk_world _ "/sax/cell" [Byte.x78]
           (PathError "rename" "/sax/cell" EISDIR));
    [reflexivity | vm_compute; reflexivity].
Defined.

(** ** What [ListSubdirs] returns *)

Lemma NoDup_omap_inj {A B} (f : A -> option B) (l : list A) :
  (forall x y z, f x = Some z -> f y = Some z -> x = y) ->
  NoDup l -> NoDup (omap f l).
Proof.
  intros Hinj. induction 1 as [|x l Hx Hl IH]; simpl; [constructor|].
  destruct (f x) as [z|] eqn:Hfx; [|exact IH].
  constructor; [|exact IH].
  intros Hz. apply list_elem_of_omap in Hz as (y & Hy & Hfy).
  rewrite (Hinj _ _ _ Hfx Hfy) in Hx. contradiction.
Qed.

Lemma children_NoDup (fs : gmap (list string) Node) (dir : list string) :
  NoDup (os.children fs dir).
Proof.
  unfold os.children. apply NoDup_omap_inj; [|apply NoDup_fst_map_to_list].
  intros k1 k2 name H1 H2.
  destruct (os.below dir k1) as [[|x [|? ?]]|] eqn:Hb1; try discriminate.
  destruct (os.below dir k2) as [[|y [|? ?]]|] eqn:Hb2; try discriminate.
  injection H1 as ->. injection H2 as ->.
  apply below_spec in Hb1, Hb2. congruence.
Qed.

Lemma Name_DirEntry (l : list string) :
  os.Name <$> ((fun n => {| os.Name := n |}) <$> l) = l.
Proof. induction l as [|x l IH]; [reflexivity|]. simpl. f_equal. exact IH. Qed.

Lemma sort_names_Sorted (l : list string) :
  Sorted (fun a b => Is_true (String.leb a b)) (sort_names l).
Proof.
  unfold sort_names. apply Sorted_merge_sort.
  intros a b. destruct (String.leb_total a b) as [H|H]; rewrite H; [left|right]; exact I.
Qed.

(** X11: on a local path [ListSubdirs] succeeds exactly when [DirExists]
    answers true.  It then returns the names of the nodes one element
    below the directory, each once, in the order of the names; anywhere
    else it returns an error. *)
Theorem ListSubdirs_local (w : World) (path : string) :
  strings.HasPrefix path gcsPathPrefix = false ->
  (DirExists w path = (true, None) ->
   exists (dir : list string) (names : list string),
     os.locate w path = inr dir /\
     ListSubdirs w path = (names, None) /\
     NoDup names /\
     Sorted (fun a b => Is_true (String.leb a b)) names /\
     forall n : string, n ∈ names <-> is_Some (localFiles w !! (dir ++ [n])%list)) /\
  (DirExists w path <> (true, None) ->
   exists err, ListSubdirs w path = ([], Some err)).
Proof.
  intros Hp. unfold DirExists, ListSubdirs, os.Stat, os.ReadDir. rewrite Hp.
  destruct (os.locate w path) as [errno|dir].
  { split; [destruct errno; discriminate|]. intros _. eexists. reflexivity. }
  destruct (localFiles w !! dir) as [[data|]|]; simpl.
  - split; [discriminate|]. intros _. eexists. reflexivity.
  - split; [|intros H; contradiction H; reflexivity].
    intros _. exists dir. eexists. split; [reflexivity|]. split; [reflexivity|].
    rewrite Name_DirEntry. split; [|split].
    + unfold sort_names. rewrite merge_sort_Permutation. apply children_NoDup.
    + apply sort_names_Sorted.
    + intros n. rewrite sort_names_elem. apply children_spec.
  - split; [discriminate|]. intros _. eexists. reflexivity.
Qed.

Lemma ListSubdirs_local_witness :
  (exists (dir : list string) (names : list string),
     os.locate local_cell_world "/sax/cell" = inr dir /\
     ListSubdirs local_cell_world "/sax/cell" = (names, None) /\
     NoDup names /\
     Sorted (fun a b => Is_true (String.leb a b)) names /\
     forall n : string,
       n ∈ names <-> is_Some (localFiles local_cell_world !! (dir ++ [n])%list)) /\
  (exists err, ListSubdirs disk_world "/sax/cell/location.proto" = ([], Some err)).
Proof.
  split.
  - apply (ListSubdirs_local local_cell_world "/sax/cell"); [reflexivity|].
    vm_compute. reflexivity.
  - apply (ListSubdirs_local disk_world "/sax/cell/location.proto"); [reflexivity|].
    vm_compute. discriminate.
Defined.

(** X12: on a remote path no name that [ListSubdirs] returns is the name
    of an entry by itself: every name is empty (a synthetic directory
    entry of the listing) or is a whole object name that starts with the
    path as it was passed, [/gcs/] included. *)
Theorem ListSubdirs_remote_full_names (w : World) (path : string) (names : list string) :
  strings.HasPrefix path gcsPathPrefix = true ->
  ListSubdirs w path = (names, None) ->
  forall n, n ∈ names ->
    n = "" \/ (strings.HasPrefix n path = true /\ strings.HasPrefix n gcsPathPrefix = true).
Proof.
  intros Hp H n Hn.
  destruct (ListSubdirs_remote_names w path names Hp H n Hn) as [->|Hpre]; [left; reflexivity|].
  right. split; [exact Hpre|]. apply (HasPrefix_trans _ _ _ Hpre Hp).
Qed.

Lemma ListSubdirs_remote_full_names_witness :
  ListSubdirs odd_names_world "/gcs/sax/cell/" = (["/gcs/sax/cell/x"], None) /\
  ListSubdirs odd_names_world "/gcs/sax/cell" = ([""], None) /\
  forall n, n ∈ ["/gcs/sax/cell/x"] ->
    n = "" \/ (strings.HasPrefix n "/gcs/sax/cell/" = true /\
               strings.HasPrefix n gcsPathPrefix = true).
Proof.
  split; [vm_compute; reflexivity|]. split; [vm_compute; reflexivity|].
  apply (ListSubdirs_remote_full_names odd_names_world "/gcs/sax/cell/");
    [reflexivity | vm_compute; reflexivity].
Defined.

(** ** The mutex over every run of the process *)

Lemma elem_of_list_insert_inv {A} (l : list A) (i : nat) (x y : A) :
  x ∈ <[i := y]> l -> x = y \/ x ∈ l.
Proof.
  revert i. induction l as [|z l IH]; intros i H; [inversion H|].
  destruct i as [|i]; simpl in H.
  - apply elem_of_cons in H as [->|H]; [left; reflexivity | right; right; exact H].
  - apply elem_of_cons in H as [->|H]; [right; left|].
    destruct (IH _ H) as [->|Hin]; [left; reflexivity | right; right; exact Hin].
Qed.

Lemma lead_inv_startup : lead_inv startup.
Proof. split; [reflexivity|]. intros closer H. inversion H. Qed.

Lemma lead_inv_step (r r' : Runtime) : lead_inv r -> proc_step r r' -> lead_inv r'.
Proof.
  intros [Hlen Hch] Hstep. destruct Hstep as [r path r' closer err H|r path|r c|r r' H].
  - unfold Lead in H. destruct (muLeader r) eqn:Hmu; [discriminate|].
    injection H as <- _ _. unfold lead_inv. simpl. rewrite !length_app. simpl.
    destruct (routines r) as [|g l]; [|discriminate]. split; [reflexivity|].
    intros c Hc. apply list_elem_of_singleton in Hc. injection Hc as ->. lia.
  - unfold lead_inv. simpl. rewrite length_app. split; [exact Hlen|].
    intros c Hc. specialize (Hch _ Hc). lia.
  - unfold lead_inv, close_chan.
    destruct (chans r !! c) as [[|]|]; simpl; rewrite ?length_insert; auto.
  - destruct H as [r i r' _ H]. unfold routine_step in H.
    destruct (routines r !! i) as [[closer|]|] eqn:Hi; [| |discriminate].
    + destruct (chans r !! closer) as [[|]|]; try discriminate.
      injection H as <-. unfold lead_inv. simpl. rewrite length_insert.
      split; [exact Hlen|]. intros c Hc.
      apply elem_of_list_insert_inv in Hc as [Hc|Hc]; [discriminate | auto].
    + injection H as <-. unfold lead_inv. simpl.
      rewrite length_delete by eauto.
      split.
      * destruct (muLeader r); [lia|]. apply lookup_lt_Some in Hi. lia.
      * intros c Hc. apply list_elem_of_delete_inv in Hc. auto.
Qed.

(** X13: in every state that a process reaches from its start through
    calls of [Lead] and [Watch], closes of channels and steps of
    goroutines, [muLeader] is locked exactly when one goroutine of [Lead]
    waits to release it (never two), that goroutine waits on a channel
    that exists, and its [Unlock] never meets an unlocked mutex: a step of
    a goroutine never crashes the process. *)
Theorem Lead_mutual_exclusion (r : Runtime) :
  rtc proc_step startup r ->
  length (routines r) = (if muLeader r then 1 else 0) /\
  (forall closer, Receiving closer ∈ routines r -> closer < length (chans r)) /\
  (forall r', sched r r' -> crashed r' = crashed r).
Proof.
  intros Hrun. assert (lead_inv r) as [Hlen Hch].
  { apply rtc_ind_r with (x := startup) (P := lead_inv) in Hrun; [exact Hrun|..].
    - apply lead_inv_startup.
    - intros y z _ Hstep Hy. apply (lead_inv_step _ _ Hy Hstep). }
  split; [exact Hlen|]. split; [exact Hch|].
  intros r' Hs. inversion Hs as [? i ? _ H]; subst. unfold routine_step in H.
  destruct (routines r !! i) as [[closer|]|] eqn:Hi; [| |discriminate].
  - destruct (chans r !! closer) as [[|]|]; try discriminate.
    injection H as <-. reflexivity.
  - injection H as <-. simpl.
    destruct (muLeader r); [apply orb_false_r|].
    apply lookup_lt_Some in Hi. lia.
Qed.

Lemma Lead_mutual_exclusion_witness :
  length (routines (after_Lead startup)) = (if muLeader (after_Lead startup) then 1 else 0) /\
  (forall closer, Receiving closer ∈ routines (after_Lead startup) ->
     closer < length (chans (after_Lead startup))) /\
  (forall r', sched (after_Lead startup) r' -> crashed r' = crashed (after_Lead startup)).
Proof.
  apply (Lead_mutual_exclusion (after_Lead startup)).
  apply rtc_once. apply (step_Lead startup "/sax/cell/leader" _ 0 None). reflexivity.
Defined.

(** ** The root of the load-test worker *)

Lemma Setenv_SAX_ROOT (p : Process) (value : string) :
  strings.Contains value (String "000" "") = false ->
  locust.Setenv p "SAX_ROOT" value
    = ({| Args0 := Args0 p; saxRoot := saxRoot p;
          environ := <["SAX_ROOT" := value]> (environ p); TempDir := TempDir p |}, None).
Proof. intros H. unfold locust.Setenv. rewrite H. reflexivity. Qed.

(** X14: when the program is not a test binary and the flag [sax_root] is
    empty, [RootDir] after [os.Setenv("SAX_ROOT", value)] with a non-empty
    value returns that value converted, whatever the variable held
    before.  For the worker, whose [main] sets
    [gs://jk-saxml-admin-bucket/sax-root], the root is the remote path
    [/gcs/jk-saxml-admin-bucket/sax-root]. *)
Theorem RootDir_after_Setenv (p : Process) (value : string) :
  strings.Contains (Args0 p) "_test" = false ->
  saxRoot p = "" ->
  value <> "" ->
  strings.Contains value (String "000" "") = false ->
  RootDir (locust.Setenv p "SAX_ROOT" value).1 = Returns (toInternal value) /\
  RootDir (locust.main_Setenv p) = Returns "/gcs/jk-saxml-admin-bucket/sax-root".
Proof.
  intros Htest Hflag Hval Hnul.
  assert (forall v, v <> "" -> strings.Contains v (String "000" "") = false ->
            RootDir (locust.Setenv p "SAX_ROOT" v).1 = Returns (toInternal v)) as Hgen.
  { intros v Hv Hn. rewrite (Setenv_SAX_ROOT _ _ Hn). unfold RootDir, Getenv. simpl.
    rewrite Htest, Hflag, lookup_insert_eq. simpl.
    destruct (String.eqb_spec v "") as [E|_]; [contradiction|].
    apply RootDir_conversion. }
  split; [apply (Hgen _ Hval Hnul)|].
  unfold locust.main_Setenv. rewrite Hgen; [reflexivity | discriminate | reflexivity].
Qed.

Lemma RootDir_after_Setenv_witness :
  RootDir (locust.Setenv (server_process "" {[ "SAX_ROOT" := "/old/root/" ]})
             "SAX_ROOT" "gs://sax/new/").1 = Returns (toInternal "gs://sax/new/") /\
  RootDir (locust.main_Setenv (server_process "" {[ "SAX_ROOT" := "/old/root/" ]}))
    = Returns "/gcs/jk-saxml-admin-bucket/sax-root".
Proof.
  apply (RootDir_after_Setenv (server_process "" {[ "SAX_ROOT" := "/old/root/" ]})
           "gs://sax/new/"); [reflexivity | reflexivity | discriminate | reflexivity].
Defined.

(** ** What the load-test worker reports *)

Lemma wrap_int_small (z : Z) :
  (- 2 ^ 63 <= z < 2 ^ 63)%Z -> locust.wrap_int z = z.
Proof. intros H. unfold locust.wrap_int. rewrite Z.mod_small; lia. Qed.

Lemma concat_length (x : string) (xs : list string) :
  String.length (String.concat "" (x :: xs))
    = String.length x + String.length (String.concat "" xs).
Proof.
  destruct xs as [|y ys]; cbn [String.concat]; [simpl; lia|].
  rewrite !string_length_app. reflexivity.
Qed.

Lemma response_length_total (response : list locust.GenerateResult) :
  forall acc : Z,
    (0 <= acc)%Z ->
    (acc + Z.of_nat (String.length (String.concat "" (locust.Text <$> response)))
       < 2 ^ 63)%Z ->
    locust.response_length response acc
      = (acc + Z.of_nat (String.length (String.concat "" (locust.Text <$> response))))%Z.
Proof.
  induction response as [|g response IH]; intros acc Hacc Hbound.
  - simpl. lia.
  - cbn [locust.response_length]. rewrite fmap_cons, concat_length in Hbound |- *.
    rewrite wrap_int_small by lia. rewrite IH by lia. lia.
Qed.

(** X15: when [Generate] returns no error, [lm_generate] records one
    success whose response length is the length of all returned texts
    together (as long as that is below 2^63, so that the counter does not
    wrap) and whose response time is the elapsed nanoseconds divided by a
    million, rounded towards zero; when it returns an error, one failure
    with the text of the error, whatever results came with it. *)
Theorem lm_generate_report (elapsed : Z) (response : list locust.GenerateResult) :
  (Z.of_nat (String.length (String.concat "" (locust.Text <$> response))) < 2 ^ 63)%Z ->
  locust.lm_generate elapsed response None
    = locust.RecordSuccess "saxml.client" "lm.Generate" (Z.quot elapsed 1000000)
        (Z.of_nat (String.length (String.concat "" (locust.Text <$> response)))) /\
  (forall msg, locust.lm_generate elapsed response (Some msg)
     = locust.RecordFailure "saxml.client" "lm.Generate" (Z.quot elapsed 1000000) msg).
Proof.
  intros Hbound. split; [|reflexivity].
  unfold locust.lm_generate. rewrite response_length_total by lia. reflexivity.
Qed.

Lemma lm_generate_report_witness :
  locust.lm_generate 1234567890
      [ {| locust.Text := "I am" |}; {| locust.Text := " a model" |} ] None
    = locust.RecordSuccess "saxml.client" "lm.Generate" (Z.quot 1234567890 1000000)
        (Z.of_nat (String.length (String.concat ""
           (locust.Text <$> [ {| locust.Text := "I am" |}; {| locust.Text := " a model" |} ])))) /\
  (forall msg, locust.lm_generate 1234567890
      [ {| locust.Text := "I am" |}; {| locust.Text := " a model" |} ] (Some msg)
     = locust.RecordFailure "saxml.client" "lm.Generate" (Z.quot 1234567890 1000000) msg).
Proof.
  apply (lm_generate_report 1234567890). vm_compute. reflexivity.
Defined.

(** ** What a write leaves of the other files *)

Lemma ReadFile_remote (w : World) (path : string) (data : bytes) :
  strings.HasPrefix path gcsPathPrefix = true ->
  ReadFile w path = Ok data ->
  exists bucket object,
    gcsBucketAndObject w path = Ok (bucket, object) /\
    storage.validate object = None /\
    storage.lookup_object w object = Some data.
Proof.
  intros Hp. unfold ReadFile, storage.NewReader. rewrite Hp.
  destruct (gcsBucketAndObject w path) as [[bucket object]|err]; [|discriminate].
  destruct (storage.validate object) as [err|] eqn:Hv; [discriminate|].
  destruct (storage.lookup_object w object) as [d|] eqn:Hl; [|discriminate].
  intros H. injection H as ->. exists bucket, object. auto.
Qed.

Lemma ReadFile_remote_lookup (w : World) (path : string)
  (bucket : BucketHandle) (object : ObjectHandle) (data : bytes) :
  strings.HasPrefix path gcsPathPrefix = true ->
  gcsBucketAndObject w path = Ok (bucket, object) ->
  storage.validate object = None ->
  storage.lookup_object w object = Some data ->
  ReadFile w path = Ok data.
Proof.
  intros Hp Hres Hv Hl. unfold ReadFile, storage.NewReader.
  rewrite Hp, Hres, Hv, Hl. reflexivity.
Qed.

(** X16: a successful [WriteFile] spoils no other file: a path that
    [ReadFile] could read before is read after with the content it had,
    unless it names the file just written (the same object, or the same
    node of the local tree), in which case it is read with the bytes
    written. *)
Theorem WriteFile_other_files (w w' : World) (path : string) (data : bytes) :
  WriteFile w path data = (w', None) ->
  forall p old, ReadFile w p = Ok old ->
    (same_file w p path -> ReadFile w' p = Ok data) /\
    (~ same_file w p path -> ReadFile w' p = Ok old).
Proof.
  intros H p old Hread. unfold same_file.
  destruct (strings.HasPrefix path gcsPathPrefix) eqn:Hp.
  - destruct (WriteFile_remote_ok _ _ _ _ Hp H)
      as (bucket & object & Hres & _ & Hnew & Hkeep & Hc & Hf & Hd).
    destruct (strings.HasPrefix p gcsPathPrefix) eqn:Hpp.
    + destruct (ReadFile_remote _ _ _ Hpp Hread) as (b' & o' & Hres' & Hv' & Hl').
      assert (gcsBucketAndObject w' p = Ok (b', o')) as Hres''.
      { rewrite (gcsBucketAndObject_client w w' _ Hc). exact Hres'. }
      split.
      * intros [_ Hsame]. rewrite Hres, Hres' in Hsame. injection Hsame as -> ->.
        apply (ReadFile_remote_lookup _ _ _ _ _ Hpp Hres'' Hv' Hnew).
      * intros Hdiff. apply (ReadFile_remote_lookup _ _ _ _ _ Hpp Hres'' Hv').
        rewrite Hkeep; [exact Hl'|]. intros ->. apply Hdiff. split; [reflexivity|].
        rewrite Hres, Hres'. f_equal. f_equal.
        destruct (gcsBucketAndObject_names _ _ _ _ Hres) as [Hb _].
        destruct (gcsBucketAndObject_names _ _ _ _ Hres') as [Hb' _].
        destruct bucket, b'. simpl in Hb, Hb'. congruence.
    + split; [intros [E _]; discriminate|]. intros _.
      unfold ReadFile in *. rewrite Hpp in *.
      rewrite (os_ReadFile_files _ _ _ Hf Hd). exact Hread.
  - unfold WriteFile in H. rewrite Hp in H.
    destruct (os_WriteFile_ok _ _ _ _ H) as (key & Hkey & Hnd & -> & _).
    destruct (strings.HasPrefix p gcsPathPrefix) eqn:Hpp.
    + split; [intros [E _]; discriminate|]. intros _.
      unfold ReadFile in *. rewrite Hpp in *. exact Hread.
    + unfold ReadFile in *. rewrite Hpp in *. unfold os.ReadFile in *.
      destruct (os.locate w p) as [errno|kp] eqn:Hkp; [discriminate|].
      assert (os.locate (set_localFiles w (<[key := File data]> (localFiles w))) p = inr kp)
        as ->.
      { apply (locate_mono w); [|reflexivity|exact Hkp].
        intros k Hk. simpl. rewrite lookup_insert_ne; [exact Hk | congruence]. }
      simpl. split.
      * intros [_ Hsame]. rewrite Hkey in Hsame. injection Hsame as ->.
        rewrite lookup_insert_eq. reflexivity.
      * intros Hdiff. rewrite lookup_insert_ne; [exact Hread|].
        intros ->. apply Hdiff. split; [reflexivity|]. symmetry. exact Hkey.
Qed.

Lemma WriteFile_other_files_witness :
  ReadFile (WriteFile disk_world "/sax/cell/state" [Byte.x78]).1 "/sax/cell/location.proto"
    = Ok [] /\
  ReadFile (WriteFile disk_world "/sax/cell/location.proto" [Byte.x78]).1
    "/sax/./cell/location.proto" = Ok [Byte.x78].
Proof.
  split.
  - apply (WriteFile_other_files disk_world _ "/sax/cell/state" [Byte.x78]);
      [vm_compute; reflexivity | vm_compute; reflexivity |].
    intros [_ E]. vm_compute in E. discriminate E.
  - apply (WriteFile_other_files disk_world _ "/sax/cell/location.proto" [Byte.x78]
             eq_refl "/sax/./cell/location.proto" []);
      [vm_compute; reflexivity |].
    split; vm_compute; reflexivity.
Defined.

(** ** One marker for one remote directory *)

(** X17: a successful [CreateDir] on a remote path makes that directory
    and no other: for every path whose marker is another object (or that
    does not resolve, or is local) [DirExists] answers as before; in
    particular the parents of the new directory do not come to exist. *)
Theorem CreateDir_remote_one_marker (w w' : World) (path : string) :
  strings.HasPrefix path gcsPathPrefix = true ->
  CreateDir w path "" = (w', None) ->
  forall p,
    gcsBucketAndObject w (filepath.Join p metadataFile)
      <> gcsBucketAndObject w (filepath.Join path metadataFile) ->
    DirExists w' p = DirExists w p.
Proof.
  intros Hp H p Hdiff. unfold CreateDir in H.
  change (String.eqb "" "") with true in H. cbn [negb] in H. rewrite Hp in H.
  destruct (gcsBucketAndObject w (filepath.Join path metadataFile))
    as [[bucket marker]|err] eqn:Hres; [|discriminate].
  destruct (storage_Close_ok _ _ _ H) as (_ & _ & Hkeep & Hc & Hf & Hd).
  simpl in Hkeep. unfold DirExists.
  destruct (strings.HasPrefix p gcsPathPrefix).
  - rewrite (gcsBucketAndObject_client _ _ _ Hc).
    destruct (gcsBucketAndObject w (filepath.Join p metadataFile))
      as [[b' o']|err] eqn:Hres'; [|reflexivity].
    rewrite (Attrs_lookup w w' o'); [reflexivity|].
    apply Hkeep. intros ->. apply Hdiff. f_equal. f_equal.
    destruct (gcsBucketAndObject_names _ _ _ _ Hres) as [Hb _].
    destruct (gcsBucketAndObject_names _ _ _ _ Hres') as [Hb' _].
    destruct bucket, b'. simpl in Hb, Hb'. congruence.
  - rewrite (Stat_files _ _ _ Hf Hd). reflexivity.
Qed.

Lemma CreateDir_remote_one_marker_witness :
  DirExists (CreateDir cloud_world "/gcs/sax/cell/a" "").1 "/gcs/sax/cell"
    = DirExists cloud_world "/gcs/sax/cell" /\
  DirExists cloud_world "/gcs/sax/cell" = (false, None).
Proof.
  split; [|vm_compute; reflexivity].
  apply (CreateDir_remote_one_marker cloud_world _ "/gcs/sax/cell/a");
    [reflexivity | vm_compute; reflexivity | vm_compute; discriminate].
Defined.

(** ** Local paths that cannot be made or written *)


Lemma DirExists_local_dir (w : World) (path : string) :
  strings.HasPrefix path gcsPathPrefix = false ->
  DirExists w path = (true, None) ->
  path <> "" /\
  exists key, os.locate w path = inr key /\ localFiles w !! key = Some Dir.
Proof.
  intros Hp. unfold DirExists, os.Stat. rewrite Hp.
  destruct (String.eqb_spec path "") as [->|Hne]; [discriminate|].
  destruct (os.locate w path) as [errno|key]; [destruct errno; discriminate|].
  destruct (localFiles w !! key) as [[data|]|] eqn:Hk; try discriminate.
  intros _. split; [exact Hne|]. exists key. auto.
Qed.








(** X20: a [WriteFileAtomically] whose target is a local directory fails
    at the rename and does not clean up: unless a directory already has the
    name of the temporary file, that file stays behind with the bytes in
    it, and the directory is still there. *)
Theorem WriteFileAtomically_leaves_temp
  (now : Z) (rnd : N) (w : World) (path : string) (data : bytes) :
  strings.HasPrefix path gcsPathPrefix = false ->
  DirExists w path = (true, None) ->
  DirExists w (path ++ "." ++ fmt_d now ++ "." ++ fmt_016x rnd) <> (true, None) ->
  exists w' err,
    WriteFileAtomically now rnd w path data = (w', Some err) /\
    ReadFile w' (path ++ "." ++ fmt_d now ++ "." ++ fmt_016x rnd) = Ok data /\
    DirExists w' path = (true, None).
Proof.
  intros Hp Hdir Htemp.
  change (path ++ "." ++ fmt_d now ++ "." ++ fmt_016x rnd)
    with (path ++ temp_suffix now rnd) in *.
  assert (strings.HasPrefix (path ++ temp_suffix now rnd) gcsPathPrefix = false) as Hpt.
  { apply (HasPrefix_dot_suffix path (fmt_d now ++ "." ++ fmt_016x rnd) Hp). }
  destruct (DirExists_local_dir _ _ Hp Hdir) as (Hpath & kp & Hkp & Hnode).
  pose proof (locate_temp w path (temp_suffix now rnd) Hpath
                (temp_suffix_slash_free now rnd) (temp_suffix_length now rnd)) as Ht.
  rewrite Hkp in Ht. destruct Ht as (kt & Hkt & Hne).
  assert (localFiles w !! kt <> Some Dir) as Hnd.
  { intros Hk. apply Htemp. unfold DirExists, os.Stat. rewrite Hpt, Hkt, Hk. reflexivity. }
  assert (os.WriteFile w (path ++ temp_suffix now rnd) data
          = (set_localFiles w (<[kt := File data]> (localFiles w)), None)) as Hw1.
  { unfold os.WriteFile. rewrite Hkt.
    destruct (localFiles w !! kt) as [[old|]|]; [reflexivity | contradiction | reflexivity]. }
  destruct (atomic_temp_written _ _ _ _ _ _ Hpath Hw1)
    as (kt' & kp' & _ & Hkp0 & Hkp1 & Hkt1 & Hfs1 & _).
  rewrite Hkp in Hkp0. injection Hkp0 as <-.
  assert (kt' = kt) as ->.
  { assert (os.locate (set_localFiles w (<[kt := File data]> (localFiles w)))
              (path ++ temp_suffix now rnd) = inr kt) as Hagain.
    { apply (locate_mono w); [|reflexivity|exact Hkt].
      intros k Hk. simpl. rewrite lookup_insert_ne; [exact Hk | congruence]. }
    congruence. }
  eexists _, _. split.
  - unfold WriteFileAtomically. rewrite Hp.
    change (path ++ "." ++ fmt_d now ++ "." ++ fmt_016x rnd)
      with (path ++ temp_suffix now rnd).
    rewrite Hw1.
    rewrite (os_Rename_file _ _ _ kt kp data Hkt1 Hkp1) by (simpl; apply lookup_insert_eq).
    simpl. rewrite lookup_insert_ne by exact Hne. rewrite Hnode. reflexivity.
  - unfold ReadFile, DirExists, os.ReadFile, os.Stat. rewrite Hp, Hpt, Hkt1, Hkp1. simpl.
    rewrite lookup_insert_eq, lookup_insert_ne by exact Hne. rewrite Hnode.
    split; reflexivity.
Qed.

Lemma WriteFileAtomically_leaves_temp_witness :
  exists w' err,
    WriteFileAtomically 17 48879 disk_world "/sax/cell" [Byte.x78] = (w', Some err) /\
    ReadFile w' ("/sax/cell" ++ "." ++ fmt_d 17 ++ "." ++ fmt_016x 48879) = Ok [Byte.x78] /\
    DirExists w' "/sax/cell" = (true, None).
Proof.
  apply (WriteFileAtomically_leaves_temp 17 48879 disk_world "/sax/cell" [Byte.x78]);
    [reflexivity | vm_compute; reflexivity | vm_compute; discriminate].
Defined.
